(** * Toastmasters timer: the display's command processor and the timer's
    derived values (src/src/lib/firestore.ts, src/src/lib/types.ts,
    src/src/display/main.ts). *)

From Stdlib Require Import ZArith List String Ascii Bool Lia Sorting.Permutation
  Sorting.Sorted Sorting.Mergesort Structures.Orders.
From Stdlib Require Decimal DecimalN.
Import ListNotations.
Open Scope Z_scope.
Set Warnings "-register-all".

(** ** Derived values (timer.ts, the second half of firestore.ts) *)
Module Timer.

(** [ColorZone] of types.ts. *)
Inductive ColorZone := neutral | green | amber | red.

(** [OvertimeMode] of types.ts. *)
Inductive OvertimeMode := none | once | repeatedly.

(** [OVERTIME_BEEP_SCHEDULE] of types.ts. *)
Definition OVERTIME_BEEP_SCHEDULE : list Z := [30; 60; 120; 180].

(** JS array indexing [a[i]]: [None] stands for [undefined] (a negative or
    too large index). *)
Definition index_Z (a : list Z) (i : Z) : option Z :=
  if i <? 0 then None else nth_error a (Z.to_nat i).

(** [getElapsedSeconds]: [Date.now()] is the explicit argument [now];
    [Math.floor] of the quotient is [Z.div] (the divisor is positive). *)
Definition getElapsedSeconds (startedAtMs : option Z) (now : Z) : Z :=
  match startedAtMs with
  | None => 0
  | Some s => (now - s) / 1000
  end.

(** [getColorZone]. *)
Definition getColorZone (elapsed lowerSec midSec upperSec : Z) : ColorZone :=
  if elapsed <? lowerSec then neutral
  else if elapsed <? midSec then green
  else if elapsed <? upperSec then amber
  else red.

(** [shouldBeep]; [overtime >= undefined] is [false] in JS. *)
Definition shouldBeep (elapsed upperSec : Z) (beeped : bool) (beepCount : Z)
    (overtimeMode : OvertimeMode) : bool :=
  match overtimeMode with
  | none => false
  | _ =>
    let overtime := elapsed - upperSec in
    if overtime <? 30 then false
    else match overtimeMode with
         | once => negb beeped
         | _ =>
           if beepCount >=? Z.of_nat (List.length OVERTIME_BEEP_SCHEDULE) then false
           else match index_Z OVERTIME_BEEP_SCHEDULE beepCount with
                | Some nextBeepAt => overtime >=? nextBeepAt
                | None => false
                end
         end
  end.

(** [isOvertime]. *)
Definition isOvertime (elapsed upperSec : Z) : bool := elapsed >=? upperSec.

End Timer.

(** ** The display's render loop and the beep (display/main.ts)

    [updateDisplay] runs on every animation frame; while the status is
    ['running'] it calls [shouldBeep] with the current elapsed value and, when
    it answers [true], [triggerBeep] writes [beeped := true] and
    [beepCount := beepCount + 1]. The model takes the frames as the list of
    elapsed values they observe and the write as reflected in the local mirror
    before the next frame (Firestore applies local writes to the listener's
    cache at once). *)
Module Render.
Import Timer.

(** The state the beep decision reads: [(beeped, beepCount)]. *)
Definition BeepState := (bool * Z)%type.

(** The frames' beep decisions; the list returned holds the elapsed values of
    the frames that fired. *)
Fixpoint beepRun (mode : OvertimeMode) (upperSec : Z) (frames : list Z)
    (st : BeepState) : BeepState * list Z :=
  match frames with
  | [] => (st, [])
  | elapsed :: rest =>
    let '(beeped, beepCount) := st in
    if shouldBeep elapsed upperSec beeped beepCount mode
    then let '(st', fired) := beepRun mode upperSec rest (true, beepCount + 1) in
         (st', elapsed :: fired)
    else beepRun mode upperSec rest st
  end.

(** One frame per elapsed second [0, 1, ..., n]. *)
Definition seconds (n : nat) : list Z := map Z.of_nat (seq 0 (S n)).

End Render.

(** ** The store: Firestore documents as JS values *)
Module Store.
Local Open Scope string_scope.

(** The values a Firestore document field, or a command payload read from the
    store, can hold. Numbers are integral here (times in ms, seconds). *)
Inductive jsval :=
| JUndef
| JNull
| JBool (b : bool)
| JNum (n : Z)
| JStr (s : string)
| JArr (xs : list jsval)
| JObj (fields : list (string * jsval)).

(** A document's map of fields. *)
Definition obj := list (string * jsval).

(** Reading a missing field gives [undefined]. *)
Fixpoint lookup (k : string) (o : obj) : jsval :=
  match o with
  | [] => JUndef
  | (k', v) :: o' => if String.eqb k k' then v else lookup k o'
  end.

(** Writing one field, replacing it where it is present. *)
Fixpoint setField (k : string) (v : jsval) (o : obj) : obj :=
  match o with
  | [] => [(k, v)]
  | (k', v') :: o' =>
    if String.eqb k k' then (k, v) :: o' else (k', v') :: setField k v o'
  end.

(** A field-level merge of a patch into a map ([updateDoc] with dotted
    paths, as [updateRoomState] builds them). *)
Definition merge (o patch : obj) : obj :=
  fold_left (fun acc kv => setField (fst kv) (snd kv) acc) patch o.

(** Property access [v.k]: on [null] or [undefined] it throws a [TypeError]
    ([None]); on any other non-object it gives [undefined]. *)
Definition get (v : jsval) (k : string) : option jsval :=
  match v with
  | JUndef | JNull => None
  | JObj fs => Some (lookup k fs)
  | _ => Some JUndef
  end.

(** Firestore's [updateDoc] rejects a value that is, or holds, [undefined]
    (the default [ignoreUndefinedProperties: false]). *)
Fixpoint has_undef (v : jsval) : bool :=
  match v with
  | JUndef => true
  | JArr xs => existsb has_undef xs
  | JObj fs => existsb (fun kv => has_undef (snd kv)) fs
  | _ => false
  end.

(** The club document: [config] and [state] (types.ts [Club]). *)
Record Club := { config : obj; state : obj }.

(** Modelled from the spec: [updateClubState] of src/lib/firestore.ts, which
    display/main.ts imports and src/ does not hold ("patchState(id,
    partialState) — field-level merge, not whole-document replace"); written
    as its sibling [updateRoomState] is: each key of the patch becomes the
    dotted path [state.key] of one [updateDoc] call, rejected whole when a
    value is [undefined]. *)
Definition updateClubState (club : Club) (patch : obj) : option Club :=
  if existsb (fun kv => has_undef (snd kv)) patch then None
  else Some {| config := config club; state := merge (state club) patch |}.

(** Modelled from the spec: [updateClubConfig] ("patchConfig(id,
    partialConfig) — field-level merge"), on the payload object's own
    fields; a payload that is not an object is rejected. *)
Definition updateClubConfig (club : Club) (payload : jsval) : option Club :=
  match payload with
  | JObj fs =>
    if existsb (fun kv => has_undef (snd kv)) fs then None
    else Some {| config := merge (config club) fs; state := state club |}
  | _ => None
  end.

(** [ClubStatus] of types.ts. *)
Inductive ClubStatus := idle | armed | running | stopped.

(** The status as the document holds it. *)
Definition status_of (o : obj) : option ClubStatus :=
  match lookup "status" o with
  | JStr s =>
    if String.eqb s "idle" then Some idle
    else if String.eqb s "armed" then Some armed
    else if String.eqb s "running" then Some running
    else if String.eqb s "stopped" then Some stopped
    else None
  | _ => None
  end.

(** Typed view of the state fields the render loop reads ([ClubState] of
    types.ts), obtained when the document's fields have their declared
    types. *)
Record ClubState := {
  status : ClubStatus;
  lowerSec : Z;
  midSec : Z;
  upperSec : Z;
  startedAtMs : option Z;
  beeped : bool;
  beepCount : Z }.

Definition num_of (v : jsval) : option Z :=
  match v with JNum n => Some n | _ => None end.

Definition decodeState (o : obj) : option ClubState :=
  match status_of o, num_of (lookup "lowerSec" o), num_of (lookup "midSec" o),
        num_of (lookup "upperSec" o), lookup "startedAtMs" o,
        lookup "beeped" o, num_of (lookup "beepCount" o) with
  | Some s, Some l, Some m, Some u, JNull, JBool b, Some c =>
    Some {| status := s; lowerSec := l; midSec := m; upperSec := u;
            startedAtMs := None; beeped := b; beepCount := c |}
  | Some s, Some l, Some m, Some u, JNum t, JBool b, Some c =>
    Some {| status := s; lowerSec := l; midSec := m; upperSec := u;
            startedAtMs := Some t; beeped := b; beepCount := c |}
  | _, _, _, _, _, _, _ => None
  end.

(** [INITIAL_CLUB_STATE] of types.ts. *)
Definition INITIAL_CLUB_STATE : obj :=
  [("status", JStr "idle"); ("presetId", JNull); ("lowerSec", JNum 0);
   ("midSec", JNum 0); ("upperSec", JNum 0); ("startedAtMs", JNull);
   ("beeped", JBool false); ("beepCount", JNum 0); ("seq", JNum 0)].

End Store.

(** ** Commands (types.ts [CommandWithId]) and the query's order *)
Module Cmd.
Import Store.

(** A pending command as the display reads it from the store: the document
    id and the stored fields; [type] and [payload] are whatever the document
    holds. *)
Record CommandWithId := {
  id : string;
  type : string;
  payload : jsval;
  sentAtMs : Z;
  clientId : string }.

End Cmd.

(** [query(commandsRef, orderBy('sentAtMs', 'asc'))] of
    [subscribeToCommands]: Firestore orders by [sentAtMs] and breaks ties by
    the document id, ascending. *)
Module CommandOrder <: Orders.TotalLeBool'.
Definition t := Cmd.CommandWithId.
Definition leb (a b : t) : bool :=
  (Cmd.sentAtMs a <? Cmd.sentAtMs b)
  || ((Cmd.sentAtMs a =? Cmd.sentAtMs b) && String.leb (Cmd.id a) (Cmd.id b)).
Infix "<=?" := leb (at level 70, no associativity).
Lemma leb_total : forall a b, (a <=? b) = true \/ (b <=? a) = true.
Proof.
  intros a b. unfold leb.
  destruct (Z.lt_trichotomy (Cmd.sentAtMs a) (Cmd.sentAtMs b)) as [H|[H|H]].
  - left. apply Z.ltb_lt in H. now rewrite H.
  - rewrite H, Z.ltb_irrefl, Z.eqb_refl. simpl.
    apply String.leb_total.
  - right. apply Z.ltb_lt in H. now rewrite H.
Qed.
End CommandOrder.

Module CommandSort := Sort CommandOrder.

(** ** The display: [processCommand] and the commands subscription *)
Module Display.
Import Store Cmd.
Local Open Scope string_scope.

(** The [switch (command.type)] of [processCommand] with its store write, on
    the club the display holds ([currentClub], kept equal to the store's
    document). [Date.now()] is [now]. [None]: an exception was thrown (a
    [TypeError] reading the payload, or [updateDoc] rejecting the write); the
    [catch] logs it and the command is not deleted. *)
Definition applyCommand (now : Z) (command : CommandWithId) (club : Club)
    : option Club :=
  if String.eqb (type command) "SET_PRESET" then
    let p := payload command in
    match get p "presetId", get p "lowerSec", get p "midSec", get p "upperSec" with
    | Some presetId, Some lowerSec, Some midSec, Some upperSec =>
      updateClubState club
        [("status", JStr "armed"); ("presetId", presetId);
         ("lowerSec", lowerSec); ("midSec", midSec); ("upperSec", upperSec);
         ("startedAtMs", JNull); ("beeped", JBool false); ("beepCount", JNum 0)]
    | _, _, _, _ => None
    end
  else if String.eqb (type command) "START" then
    match status_of (state club) with
    | Some armed | Some stopped =>
      updateClubState club
        [("status", JStr "running"); ("startedAtMs", JNum now);
         ("beeped", JBool false); ("beepCount", JNum 0)]
    | _ => Some club
    end
  else if String.eqb (type command) "STOP" then
    match status_of (state club) with
    | Some running => updateClubState club [("status", JStr "stopped")]
    | _ => Some club
    end
  else if String.eqb (type command) "RESET" then
    updateClubState club
      [("status", JStr "idle"); ("presetId", JNull); ("lowerSec", JNum 0);
       ("midSec", JNum 0); ("upperSec", JNum 0); ("startedAtMs", JNull);
       ("beeped", JBool false); ("beepCount", JNum 0)]
  else if String.eqb (type command) "UPDATE_CONFIG" then
    updateClubConfig club (payload command)
  else Some club.

(** The display process: its mirror of the club, the store's pending
    commands and its [processedCommandIds] (a JS [Set], kept in insertion
    order). *)
Record Proc := {
  currentClub : option Club;
  commands : list CommandWithId;
  processedCommandIds : list string }.

(** [deleteCommand]. *)
Definition deleteCommand (cid : string) (cs : list CommandWithId)
    : list CommandWithId :=
  filter (fun c => negb (String.eqb (id c) cid)) cs.

(** [processCommand]: the early return without a club, the switch, then the
    delete; an exception skips the delete. *)
Definition processCommand (now : Z) (command : CommandWithId) (p : Proc) : Proc :=
  match currentClub p with
  | None => p
  | Some club =>
    match applyCommand now command club with
    | None => p
    | Some club' =>
      {| currentClub := Some club';
         commands := deleteCommand (id command) (commands p);
         processedCommandIds := processedCommandIds p |}
    end
  end.

Definition markProcessed (cid : string) (p : Proc) : Proc :=
  {| currentClub := currentClub p; commands := commands p;
     processedCommandIds := processedCommandIds p ++ [cid] |}.

(** The [subscribeToCommands] callback of [startSubscriptions] on one
    snapshot, run to completion; it also returns the commands handed to
    [processCommand], in the order it handed them. *)
Fixpoint onCommands (now : Z) (snapshot : list CommandWithId) (p : Proc)
    : Proc * list CommandWithId :=
  match snapshot with
  | [] => (p, [])
  | command :: rest =>
    if existsb (String.eqb (id command)) (processedCommandIds p)
    then onCommands now rest p
    else
      let p' := markProcessed (id command) (processCommand now command p) in
      let '(p'', applied) := onCommands now rest p' in
      (p'', command :: applied)
  end.

(** The snapshot the query delivers: the pending commands in its order. *)
Definition snapshotOf (p : Proc) : list CommandWithId :=
  CommandSort.sort (commands p).

(** One delivery of the current snapshot. *)
Definition deliver (now : Z) (p : Proc) : Proc * list CommandWithId :=
  onCommands now (snapshotOf p) p.

End Display.

(** ** What the display shows ([getDisplayColorClass], [updateDisplay]) *)
Module View.
Import Timer Store.
Local Open Scope string_scope.

Definition zoneName (z : ColorZone) : string :=
  match z with
  | neutral => "neutral" | green => "green" | amber => "amber" | red => "red"
  end.

(** [getDisplayColorClass]; [Date.now()] is [now]. *)
Definition getDisplayColorClass (s : ClubState) (now : Z) : string :=
  match status s with
  | idle | armed => "color-neutral"
  | stopped =>
    let elapsed := getElapsedSeconds (startedAtMs s) now in
    let zone := getColorZone elapsed (lowerSec s) (midSec s) (upperSec s) in
    "color-" ++ zoneName zone
  | running =>
    let elapsed := getElapsedSeconds (startedAtMs s) now in
    let zone := getColorZone elapsed (lowerSec s) (midSec s) (upperSec s) in
    "color-" ++ zoneName zone
  end.

(** The elapsed value [updateDisplay] shows. *)
Definition shownElapsed (s : ClubState) (now : Z) : Z :=
  match status s with
  | running | stopped => getElapsedSeconds (startedAtMs s) now
  | _ => 0
  end.

End View.

(** ** Text the timer shows (timer.ts: [formatTime], [formatPresetRange],
    [getStatusText]) *)
Module Format.
Import Store.
Local Open Scope string_scope.

(** The decimal digits of a [Decimal.uint], most significant first. *)
Fixpoint uintString (d : Decimal.uint) : string :=
  match d with
  | Decimal.Nil => ""
  | Decimal.D0 d => String "0" (uintString d)
  | Decimal.D1 d => String "1" (uintString d)
  | Decimal.D2 d => String "2" (uintString d)
  | Decimal.D3 d => String "3" (uintString d)
  | Decimal.D4 d => String "4" (uintString d)
  | Decimal.D5 d => String "5" (uintString d)
  | Decimal.D6 d => String "6" (uintString d)
  | Decimal.D7 d => String "7" (uintString d)
  | Decimal.D8 d => String "8" (uintString d)
  | Decimal.D9 d => String "9" (uintString d)
  end.

(** [Number.MAX_SAFE_INTEGER]. *)
Definition MAX_SAFE_INTEGER : Z := 2 ^ 53 - 1.

(** [n.toString()] of an integral JS number [n] with
    [|n| <= MAX_SAFE_INTEGER], where JS prints every digit exactly. Above
    that range JS prints the shortest digits that round-trip the double (and
    from 1e21 an exponent form), which this definition does not follow: the
    properties below that depend on it are stated inside the safe range. *)
Definition toString (n : Z) : string :=
  if (n <? 0)%Z then String "-" (uintString (N.to_uint (Z.to_N (- n))))
  else uintString (N.to_uint (Z.to_N n)).

(** [s.padStart(2, '0')]. *)
Definition padStart2 (s : string) : string :=
  match String.length s with
  | O => "00" ++ s
  | S O => "0" ++ s
  | _ => s
  end.

(** [formatTime] on an integral number of seconds: [Math.floor] of
    [Math.abs(seconds) / 60] and of [Math.abs(seconds) % 60] are [Z.div] and
    [Z.modulo] of the absolute value ([%] is exact on doubles; for
    [|seconds| <= MAX_SAFE_INTEGER] the quotient is below 2^48, where the
    doubles are at most 1/32 apart, so the rounded quotient of a
    non-multiple of 60, at least 1/60 away from an integer, floors to the
    same integer). *)
Definition formatTime (seconds : Z) : string :=
  let mins := (Z.abs seconds / 60)%Z in
  let secs := (Z.abs seconds mod 60)%Z in
  let sign := if (seconds <? 0)%Z then "-" else "" in
  sign ++ padStart2 (toString mins) ++ ":" ++ padStart2 (toString secs).

(** [formatPresetRange]. *)
Definition formatPresetRange (lowerSec upperSec : Z) : string :=
  let lowerMin := (lowerSec / 60)%Z in
  let upperMin := (upperSec / 60)%Z in
  toString lowerMin ++ "-" ++ toString upperMin ++ " min".

(** [getStatusText] (timer.ts). *)
Definition getStatusText (s : ClubState) : string :=
  match status s with
  | idle => "Ready"
  | armed => "Set: " ++ formatPresetRange (lowerSec s) (upperSec s)
  | running => "Running"
  | stopped => "Stopped"
  end.

(** Readers used to state what the formatted text determines. *)
Definition digitChars : list ascii :=
  ["0"; "1"; "2"; "3"; "4"; "5"; "6"; "7"; "8"; "9"]%char.

Fixpoint parseUint (s : string) : option Decimal.uint :=
  match s with
  | EmptyString => Some Decimal.Nil
  | String c r =>
    match parseUint r with
    | None => None
    | Some d =>
      if Ascii.eqb c "0" then Some (Decimal.D0 d)
      else if Ascii.eqb c "1" then Some (Decimal.D1 d)
      else if Ascii.eqb c "2" then Some (Decimal.D2 d)
      else if Ascii.eqb c "3" then Some (Decimal.D3 d)
      else if Ascii.eqb c "4" then Some (Decimal.D4 d)
      else if Ascii.eqb c "5" then Some (Decimal.D5 d)
      else if Ascii.eqb c "6" then Some (Decimal.D6 d)
      else if Ascii.eqb c "7" then Some (Decimal.D7 d)
      else if Ascii.eqb c "8" then Some (Decimal.D8 d)
      else if Ascii.eqb c "9" then Some (Decimal.D9 d)
      else None
    end
  end.

(** The text before and after the first [sep]. *)
Fixpoint splitAt (sep : ascii) (s : string) : option (string * string) :=
  match s with
  | EmptyString => None
  | String c r =>
    if Ascii.eqb c sep then Some (EmptyString, r)
    else match splitAt sep r with
         | Some (a, b) => Some (String c a, b)
         | None => None
         end
  end.

Definition uintValue (d : Decimal.uint) : Z := Z.of_N (N.of_uint d).

(** Reads ["[-]mm:ss"] back as seconds. *)
Definition parseTime (s : string) : option Z :=
  let '(neg, body) :=
    match s with
    | String c r => if Ascii.eqb c "-" then (true, r) else (false, s)
    | EmptyString => (false, s)
    end in
  match splitAt ":" body with
  | Some (a, b) =>
    match parseUint a, parseUint b with
    | Some m, Some sc =>
      let v := (uintValue m * 60 + uintValue sc)%Z in
      Some (if neg then (- v)%Z else v)
    | _, _ => None
    end
  | None => None
  end.

(** Reads ["L-U min"] back as [(L, U)]. *)
Definition parsePresetRange (s : string) : option (Z * Z) :=
  match splitAt "-" s with
  | Some (a, b) =>
    match splitAt " " b with
    | Some (c, rest) =>
      if String.eqb rest "min" then
        match parseUint a, parseUint c with
        | Some x, Some y => Some (uintValue x, uintValue y)
        | _, _ => None
        end
      else None
    | None => None
    end
  | None => None
  end.

End Format.

(** ** Club ids (display/main.ts [normalizeClubId], [handleJoinClub])

    A Rocq [string] is read as a sequence of code points U+0000..U+00FF. *)
Module ClubId.
Local Open Scope string_scope.

(** JS [\s] and the white space [trim] removes, in that range: tab, line
    feed, vertical tab, form feed, carriage return, space, no-break space. *)
Definition isWhitespace (c : ascii) : bool :=
  let n := nat_of_ascii c in
  ((9 <=? n)%nat && (n <=? 13)%nat) || (n =? 32)%nat || (n =? 160)%nat.

Fixpoint trimStart (s : string) : string :=
  match s with
  | EmptyString => EmptyString
  | String c r => if isWhitespace c then trimStart r else s
  end.

Fixpoint trimEnd (s : string) : string :=
  match s with
  | EmptyString => EmptyString
  | String c r =>
    let r' := trimEnd r in
    if isWhitespace c && String.eqb r' "" then EmptyString else String c r'
  end.

(** [s.trim()]. *)
Definition trim (s : string) : string := trimEnd (trimStart s).

(** [toLowerCase] in that range: A-Z and U+00C0..U+00DE but U+00D7. *)
Definition lowerChar (c : ascii) : ascii :=
  let n := nat_of_ascii c in
  if ((65 <=? n)%nat && (n <=? 90)%nat)
     || ((192 <=? n)%nat && (n <=? 222)%nat && negb (n =? 215)%nat)
  then ascii_of_nat (n + 32) else c.

Fixpoint toLowerCase (s : string) : string :=
  match s with
  | EmptyString => EmptyString
  | String c r => String (lowerChar c) (toLowerCase r)
  end.

(** [s.replace(/\s+/g, '-')]; [inRun]: the previous character was white
    space of the run already replaced. *)
Fixpoint replaceWhitespace (inRun : bool) (s : string) : string :=
  match s with
  | EmptyString => EmptyString
  | String c r =>
    if isWhitespace c then
      (if inRun then replaceWhitespace true r
       else String "-" (replaceWhitespace true r))
    else String c (replaceWhitespace false r)
  end.

(** The characters [/[^a-z0-9-]/g] does not remove. *)
Definition allowedChar (c : ascii) : bool :=
  let n := nat_of_ascii c in
  ((97 <=? n)%nat && (n <=? 122)%nat) || ((48 <=? n)%nat && (n <=? 57)%nat)
  || (n =? 45)%nat.

Fixpoint keepAllowed (s : string) : string :=
  match s with
  | EmptyString => EmptyString
  | String c r => if allowedChar c then String c (keepAllowed r) else keepAllowed r
  end.

(** [normalizeClubId]. *)
Definition normalizeClubId (id : string) : string :=
  keepAllowed (replaceWhitespace false (toLowerCase (trim id))).

(** The check of [handleJoinClub] on the normalized id:
    [!inputId || inputId.length < 2] rejects. *)
Definition acceptedClubId (inputId : string) : bool :=
  negb (String.eqb inputId "") && (2 <=? String.length inputId)%nat.

End ClubId.

(** ** One frame of the display ([updateDisplay] of display/main.ts) *)
Module Screen.
Import Timer Store View Format.
Local Open Scope string_scope.

(** What a frame sets: the color class, the timer text ([None]: hidden), the
    status text, the overtime indicator ([None]: not visible) and whether it
    calls [triggerBeep]. *)
Record Frame := {
  colorClass : string;
  timerText : option string;
  statusText : string;
  overtimeText : option string;
  beeps : bool }.

Definition isRunning (s : ClubState) : bool :=
  match status s with running => true | _ => false end.

(** [updateDisplay] on the state, the config's [showTimer] and
    [overtimeMode], [isAudioUnlocked()] and [Date.now()]. *)
Definition updateDisplay (s : ClubState) (showTimer : bool)
    (overtimeMode : OvertimeMode) (audioUnlocked : bool) (now : Z) : Frame :=
  let elapsed := shownElapsed s now in
  {| colorClass := getDisplayColorClass s now;
     timerText := if showTimer then Some (formatTime elapsed) else None;
     statusText := getStatusText s;
     overtimeText :=
       if isRunning s && isOvertime elapsed (upperSec s)
       then Some ("+" ++ formatTime (elapsed - upperSec s)%Z ++ " overtime")
       else None;
     beeps :=
       isRunning s
       && shouldBeep elapsed (upperSec s) (beeped s) (beepCount s) overtimeMode
       && audioUnlocked |}.

End Screen.

(** ** The controller (control/main.ts) *)
Module Control.
Import Store.
Local Open Scope string_scope.

(** [Preset] of types.ts. *)
Record Preset := {
  presetId : string;
  label : string;
  lower : Z;
  mid : Z;
  upper : Z }.

(** [sendCommand] of a command with the store's new document id [cid]:
    [sentAtMs] is [Date.now()]. *)
Definition sendCommand (cid : string) (type : string) (payload : jsval)
    (clientId : string) (now : Z) : Cmd.CommandWithId :=
  {| Cmd.id := cid; Cmd.type := type; Cmd.payload := payload;
     Cmd.sentAtMs := now; Cmd.clientId := clientId |}.

(** The command [handlePresetSelect] sends. *)
Definition handlePresetSelect (preset : Preset) (cid clientId : string) (now : Z)
    : Cmd.CommandWithId :=
  sendCommand cid "SET_PRESET"
    (JObj [("presetId", JStr (presetId preset)); ("lowerSec", JNum (lower preset));
           ("midSec", JNum (mid preset)); ("upperSec", JNum (upper preset))])
    clientId now.

(** The commands [handleStart], [handleStop] and [handleReset] send. *)
Definition handleStart (cid clientId : string) (now : Z) : Cmd.CommandWithId :=
  sendCommand cid "START" (JObj []) clientId now.
Definition handleStop (cid clientId : string) (now : Z) : Cmd.CommandWithId :=
  sendCommand cid "STOP" (JObj []) clientId now.
Definition handleReset (cid clientId : string) (now : Z) : Cmd.CommandWithId :=
  sendCommand cid "RESET" (JObj []) clientId now.

(** The [disabled] flags [updateButtonStates] sets. *)
Record Buttons := {
  startDisabled : bool;
  stopDisabled : bool;
  resetDisabled : bool;
  presetsDisabled : bool }.

Definition updateButtonStates (s : ClubStatus) : Buttons :=
  let presets := match s with running => true | _ => false end in
  match s with
  | idle => {| startDisabled := true; stopDisabled := true; resetDisabled := true;
               presetsDisabled := presets |}
  | armed => {| startDisabled := false; stopDisabled := true; resetDisabled := false;
                presetsDisabled := presets |}
  | running => {| startDisabled := true; stopDisabled := false; resetDisabled := false;
                  presetsDisabled := presets |}
  | stopped => {| startDisabled := false; stopDisabled := true; resetDisabled := false;
                  presetsDisabled := presets |}
  end.

End Control.

(** The order in which the zones follow one another. *)
Module ZoneOrder.
Import Timer.
Definition zoneRank (z : ColorZone) : Z :=
  match z with neutral => 0 | green => 1 | amber => 2 | red => 3 end.
End ZoneOrder.

(** * Properties *)

Module TimerFacts.
Import Timer.

Example getColorZone_59 : getColorZone 59 60 90 120 = neutral.
Proof. reflexivity. Qed.

Lemma getColorZone_cases (e l m u : Z) :
  l <= m -> m <= u ->
  (getColorZone e l m u = neutral <-> e < l) /\
  (getColorZone e l m u = green <-> l <= e < m) /\
  (getColorZone e l m u = amber <-> m <= e < u) /\
  (getColorZone e l m u = red <-> u <= e).
Proof.
  intros Hlm Hmu. unfold getColorZone.
  destruct (Z.ltb_spec e l), (Z.ltb_spec e m), (Z.ltb_spec e u);
    repeat split; intros; try discriminate; try reflexivity; lia.
Qed.

(** C5: for non-negative [elapsed] and thresholds [lower <= mid <= upper],
    [getColorZone] answers neutral iff [elapsed < lower], green iff
    [lower <= elapsed < mid], amber iff [mid <= elapsed < upper] and red iff
    [elapsed >= upper]; at (60, 90, 120) it maps 59, 60, 89, 90, 119, 120 to
    neutral, green, green, amber, amber, red. *)
Theorem getColorZone_bands (elapsed lower mid upper : Z) :
  0 <= elapsed -> 0 <= lower -> lower <= mid -> mid <= upper ->
  ((getColorZone elapsed lower mid upper = neutral <-> elapsed < lower) /\
   (getColorZone elapsed lower mid upper = green <-> lower <= elapsed < mid) /\
   (getColorZone elapsed lower mid upper = amber <-> mid <= elapsed < upper) /\
   (getColorZone elapsed lower mid upper = red <-> elapsed >= upper)) /\
  map (fun e => getColorZone e 60 90 120) [59; 60; 89; 90; 119; 120]
  = [neutral; green; green; amber; amber; red].
Proof.
  intros _ _ Hlm Hmu.
  destruct (getColorZone_cases elapsed lower mid upper Hlm Hmu)
    as (Hn & Hg & Ha & Hr).
  split; [|reflexivity].
  repeat split; try tauto; intros; [apply Hr in H; lia | apply Hr; lia].
Qed.

Lemma getColorZone_bands_witness :
  ((getColorZone 100 60 90 120 = neutral <-> 100 < 60) /\
   (getColorZone 100 60 90 120 = green <-> 60 <= 100 < 90) /\
   (getColorZone 100 60 90 120 = amber <-> 90 <= 100 < 120) /\
   (getColorZone 100 60 90 120 = red <-> 100 >= 120)) /\
  map (fun e => getColorZone e 60 90 120) [59; 60; 89; 90; 119; 120]
  = [neutral; green; green; amber; amber; red].
Proof. apply (getColorZone_bands 100 60 90 120); lia. Defined.

(** C6: [shouldBeep] is false in mode [none], false whenever
    [elapsed - upper < 30] whatever the mode, and in mode [once] with
    [elapsed - upper >= 30] it is true iff [beeped] is false. *)
Theorem shouldBeep_grace_once :
  forall (elapsed upper : Z) (beeped : bool) (beepCount : Z) (mode : OvertimeMode),
    (mode = none -> shouldBeep elapsed upper beeped beepCount mode = false) /\
    (elapsed - upper < 30 -> shouldBeep elapsed upper beeped beepCount mode = false) /\
    (mode = once -> elapsed - upper >= 30 ->
     (shouldBeep elapsed upper beeped beepCount mode = true <-> beeped = false)).
Proof.
  intros elapsed upper beeped beepCount mode.
  split; [|split].
  - intros ->. reflexivity.
  - intros H. unfold shouldBeep.
    destruct mode; [reflexivity| |];
      (replace (elapsed - upper <? 30) with true by (symmetry; apply Z.ltb_lt; lia));
      reflexivity.
  - intros -> H. unfold shouldBeep.
    replace (elapsed - upper <? 30) with false by (symmetry; apply Z.ltb_ge; lia).
    destruct beeped; simpl; split; congruence.
Qed.

(** C10: with [lower <= mid <= upper], [isOvertime elapsed upper] holds iff
    [getColorZone elapsed lower mid upper] is red. *)
Theorem isOvertime_iff_red (elapsed lower mid upper : Z) :
  0 <= elapsed -> 0 <= lower -> lower <= mid -> mid <= upper ->
  (isOvertime elapsed upper = true <-> getColorZone elapsed lower mid upper = red).
Proof.
  intros _ _ Hlm Hmu.
  destruct (getColorZone_cases elapsed lower mid upper Hlm Hmu) as (_ & _ & _ & Hr).
  rewrite Hr. unfold isOvertime. rewrite Z.geb_le. tauto.
Qed.

Lemma isOvertime_iff_red_witness :
  (isOvertime 130 120 = true <-> getColorZone 130 60 90 120 = red).
Proof. apply (isOvertime_iff_red 130 60 90 120); lia. Defined.

End TimerFacts.

Module BeepFacts.
Import Timer Render.

Example beepRun_300 :
  beepRun repeatedly 120 (seconds 300) (false, 0) = ((true, 4), [150; 180; 240; 300]).
Proof. vm_compute. reflexivity. Qed.

Lemma shouldBeep_repeatedly_spec (elapsed upper : Z) (beeped : bool) (beepCount : Z) :
  0 <= beepCount ->
  (shouldBeep elapsed upper beeped beepCount repeatedly = true <->
   beepCount < 4 /\
   elapsed - upper >= nth (Z.to_nat beepCount) OVERTIME_BEEP_SCHEDULE 0).
Proof.
  intros Hc. unfold shouldBeep. simpl (Z.of_nat _).
  destruct (Z.geb_spec beepCount 4).
  - destruct (elapsed - upper <? 30); split; intros; try discriminate; lia.
  - assert (Hi : index_Z OVERTIME_BEEP_SCHEDULE beepCount
                 = Some (nth (Z.to_nat beepCount) OVERTIME_BEEP_SCHEDULE 0)).
    { unfold index_Z. replace (beepCount <? 0) with false by (symmetry; apply Z.ltb_ge; lia).
      apply nth_error_nth'. simpl. lia. }
    assert (Hge : 30 <= nth (Z.to_nat beepCount) OVERTIME_BEEP_SCHEDULE 0).
    { assert (Z.to_nat beepCount < 4)%nat by lia.
      destruct (Z.to_nat beepCount) as [|[|[|[|k]]]]; simpl; lia. }
    rewrite Hi. destruct (Z.ltb_spec (elapsed - upper) 30).
    + split; intros; [discriminate | lia].
    + rewrite Z.geb_le. split; intros; lia.
Qed.

Lemma beepRun_fired_lt4 (upper e : Z) (b : bool) (c : Z) :
  shouldBeep e upper b c repeatedly = true -> c < 4.
Proof.
  unfold shouldBeep. simpl (Z.of_nat _).
  destruct (e - upper <? 30); [discriminate|].
  destruct (Z.geb_spec c 4); [discriminate|lia].
Qed.

Lemma beepRun_app (mode : OvertimeMode) (upper : Z) (l1 l2 : list Z) (st : BeepState) :
  beepRun mode upper (l1 ++ l2) st =
  let '(st1, f1) := beepRun mode upper l1 st in
  let '(st2, f2) := beepRun mode upper l2 st1 in
  (st2, f1 ++ f2).
Proof.
  revert st. induction l1 as [|e l1 IH]; intros [b c]; cbn [beepRun app].
  - destruct (beepRun mode upper l2 (b, c)); reflexivity.
  - destruct (shouldBeep e upper b c mode).
    + rewrite IH. destruct (beepRun mode upper l1 (true, c + 1)) as [st1 f1].
      destruct (beepRun mode upper l2 st1). reflexivity.
    + apply IH.
Qed.

Lemma beepRun_exhausted (upper : Z) (l : list Z) (b : bool) (c : Z) :
  4 <= c -> beepRun repeatedly upper l (b, c) = ((b, c), []).
Proof.
  intros Hc. induction l as [|e l IH]; cbn [beepRun]; [reflexivity|].
  destruct (shouldBeep e upper b c repeatedly) eqn:E; [|exact IH].
  apply beepRun_fired_lt4 in E. lia.
Qed.

Lemma beepRun_bound (upper : Z) (l : list Z) (b : bool) (c : Z) :
  0 <= c -> (List.length (snd (beepRun repeatedly upper l (b, c))) <= Z.to_nat (4 - c))%nat.
Proof.
  revert b c. induction l as [|e l IH]; intros b c Hc; cbn [beepRun]; [simpl; lia|].
  destruct (shouldBeep e upper b c repeatedly) eqn:E.
  - apply beepRun_fired_lt4 in E.
    specialize (IH true (c + 1) ltac:(lia)).
    assert (Hs : Z.to_nat (4 - c) = S (Z.to_nat (4 - (c + 1))))
      by (rewrite <- Z2Nat.inj_succ; [f_equal; lia | lia]).
    destruct (beepRun repeatedly upper l (true, c + 1)) as [st f].
    cbn [snd List.length] in *. rewrite Hs. lia.
  - apply IH; exact Hc.
Qed.

Lemma seconds_split (n : nat) :
  (300 <= n)%nat ->
  seconds n = seconds 300 ++ map Z.of_nat (seq 301 (n - 300)).
Proof.
  intros H. unfold seconds. rewrite <- map_app.
  replace (S n) with (301 + (n - 300))%nat by lia.
  rewrite seq_app. reflexivity.
Qed.

(** C7: in mode [repeatedly] (with [beepCount >= 0]) [shouldBeep] is true iff
    [beepCount < 4] and [elapsed - upper >= schedule[beepCount]] for the
    schedule [30; 60; 120; 180]; with each firing followed by
    [beepCount + 1], the frames of the elapsed seconds [0..n] with
    [upperSec = 120] fire exactly at 150, 180, 240 and 300 once [n >= 300],
    and no run of frames from a fresh start fires a fifth time. *)
Theorem shouldBeep_repeatedly_schedule (elapsed upper : Z) (beeped : bool) (beepCount : Z) :
  0 <= beepCount ->
  (shouldBeep elapsed upper beeped beepCount repeatedly = true <->
   beepCount < 4 /\
   elapsed - upper >= nth (Z.to_nat beepCount) OVERTIME_BEEP_SCHEDULE 0) /\
  (forall n : nat, (300 <= n)%nat ->
   snd (beepRun repeatedly 120 (seconds n) (false, 0)) = [150; 180; 240; 300]) /\
  (forall (upperSec : Z) (frames : list Z),
   (List.length (snd (beepRun repeatedly upperSec frames (false, 0%Z))) <= 4)%nat).
Proof.
  intros Hc. split; [now apply shouldBeep_repeatedly_spec|split].
  - intros n Hn. rewrite seconds_split by exact Hn.
    rewrite beepRun_app, beepRun_300.
    rewrite beepRun_exhausted by lia. reflexivity.
  - intros upperSec frames.
    apply (beepRun_bound upperSec frames false 0). lia.
Qed.

Lemma shouldBeep_repeatedly_schedule_witness :
  0 <= 1 /\
  ((shouldBeep 180 120 true 1 repeatedly = true <->
    1 < 4 /\ 180 - 120 >= nth (Z.to_nat 1) OVERTIME_BEEP_SCHEDULE 0) /\
   (forall n : nat, (300 <= n)%nat ->
    snd (beepRun repeatedly 120 (seconds n) (false, 0)) = [150; 180; 240; 300]) /\
   (forall (upperSec : Z) (frames : list Z),
    (List.length (snd (beepRun repeatedly upperSec frames (false, 0%Z))) <= 4)%nat)).
Proof. split; [lia|]. apply (shouldBeep_repeatedly_schedule 180 120 true 1). lia. Defined.

End BeepFacts.

(** ** The store's field maps *)
Module StoreFacts.
Import Store.

Lemma lookup_setField (k k' : string) (v : jsval) (o : obj) :
  lookup k (setField k' v o) = if String.eqb k k' then v else lookup k o.
Proof.
  induction o as [|[k'' v''] o IH]; simpl.
  - reflexivity.
  - destruct (String.eqb_spec k' k'') as [->|Hne]; simpl.
    + destruct (String.eqb k k''); reflexivity.
    + rewrite IH. destruct (String.eqb_spec k k') as [->|]; [|reflexivity].
      apply String.eqb_neq in Hne. now rewrite Hne.
Qed.

(** Reading a field after a merge: the patch's last write of it, or the old
    value. *)
Lemma lookup_merge_notin (k : string) (o patch : obj) :
  existsb (fun kv => String.eqb k (fst kv)) patch = false ->
  lookup k (merge o patch) = lookup k o.
Proof.
  unfold merge. revert o. induction patch as [|[k' v] patch IH]; intros o H;
    simpl in *; [reflexivity|].
  apply orb_false_iff in H as [H1 H2].
  rewrite IH by exact H2. rewrite lookup_setField, H1. reflexivity.
Qed.

Lemma lookup_merge_last (k : string) (v : jsval) (o patch : obj) :
  existsb (fun kv => String.eqb k (fst kv)) patch = false ->
  lookup k (merge o ((k, v) :: patch)) = v.
Proof.
  intros H. unfold merge. cbn [fold_left fst snd].
  fold (merge (setField k v o) patch).
  rewrite lookup_merge_notin by exact H.
  rewrite lookup_setField, String.eqb_refl. reflexivity.
Qed.

End StoreFacts.

Module ProcFacts.
Import Store Cmd Display StoreFacts.
Local Open Scope string_scope.

(** A club armed with the 1-2 min preset. *)
Definition armedClub : Club :=
  {| config := [];
     state := merge INITIAL_CLUB_STATE
       [("status", JStr "armed"); ("presetId", JStr "p_1_2");
        ("lowerSec", JNum 60); ("midSec", JNum 90); ("upperSec", JNum 120)] |}.

Definition mkCommand (cid ty : string) (p : jsval) (t : Z) : CommandWithId :=
  {| id := cid; type := ty; payload := p; sentAtMs := t; clientId := "phone" |}.

Definition startCmd := mkCommand "c1" "START" (JObj []) 0.
Definition stopCmd := mkCommand "c2" "STOP" (JObj []) 100000.

(** The display holding [club] with no pending command. *)
Definition procOf (club : Club) : Proc :=
  {| currentClub := Some club; commands := []; processedCommandIds := [] |}.

(** [processCommand] never touches [processedCommandIds]. *)
Lemma processCommand_processed (now : Z) (c : CommandWithId) (p : Proc) :
  processedCommandIds (processCommand now c p) = processedCommandIds p.
Proof.
  unfold processCommand.
  destruct (currentClub p); [|reflexivity].
  destruct (applyCommand now c c0); reflexivity.
Qed.

End ProcFacts.

Module StopFacts.
Import Timer Store Cmd Display View ProcFacts.
Local Open Scope string_scope.

(** The display after START at [t = 0] and STOP at [t = 100 s]. *)
Definition stoppedProc : Proc :=
  processCommand 100000 stopCmd (processCommand 0 startCmd (procOf armedClub)).

(** C1 (fails): after STOP at 100 s the stored state is [stopped] with
    [startedAtMs = 0]; re-evaluated at 130 s, [getDisplayColorClass] answers
    red where it answered amber at the stop, and the shown elapsed is 130,
    not 100: the color and the elapsed keep following [Date.now()]. *)
Lemma stopped_color_not_frozen :
  match currentClub stoppedProc with
  | Some club =>
    match decodeState (state club) with
    | Some s =>
      status s = stopped /\
      getDisplayColorClass s 100000 = "color-amber" /\
      getDisplayColorClass s 130000 = "color-red" /\
      shownElapsed s 100000 = 100 /\
      shownElapsed s 130000 = 130
    | None => False
    end
  | None => False
  end.
Proof. vm_compute. repeat split. Qed.

End StopFacts.

Module TransitionFacts.
Import Store Cmd Display StoreFacts ProcFacts.
Local Open Scope string_scope.

(** The status each command type leads to, as [processCommand] is written:
    SET_PRESET arms from every status, START runs from armed or stopped,
    STOP stops from running, RESET goes idle from every status, anything
    else keeps the status. *)
Definition next_status (s : ClubStatus) (t : string) : ClubStatus :=
  if String.eqb t "SET_PRESET" then armed
  else if String.eqb t "START" then
    match s with armed | stopped => running | _ => s end
  else if String.eqb t "STOP" then
    match s with running => stopped | _ => s end
  else if String.eqb t "RESET" then idle
  else s.


Ltac patched_status :=
  unfold updateClubState;
  match goal with
  | |- context [if ?b then _ else _] => destruct b; [exact I|]
  end;
  cbn [state]; unfold status_of;
  rewrite lookup_merge_last by reflexivity; reflexivity.

Lemma applyCommand_status (now : Z) (c : CommandWithId) (club : Club) (s : ClubStatus) :
  status_of (state club) = Some s ->
  match applyCommand now c club with
  | Some club' => status_of (state club') = Some (next_status s (type c))
  | None => True
  end.
Proof.
  intros Hs. unfold applyCommand, next_status.
  destruct (String.eqb (type c) "SET_PRESET").
  { destruct (get (payload c) "presetId"), (get (payload c) "lowerSec"),
      (get (payload c) "midSec"), (get (payload c) "upperSec");
      try exact I; patched_status. }
  destruct (String.eqb (type c) "START").
  { rewrite Hs. destruct s; try exact Hs; patched_status. }
  destruct (String.eqb (type c) "STOP").
  { rewrite Hs. destruct s; try exact Hs; patched_status. }
  destruct (String.eqb (type c) "RESET").
  { patched_status. }
  destruct (String.eqb (type c) "UPDATE_CONFIG"); [|exact Hs].
  unfold updateClubConfig. destruct (payload c); try exact I.
  destruct (existsb _ _); [exact I | exact Hs].
Qed.






End TransitionFacts.

Module PayloadFacts.
Import Store Cmd Display StoreFacts ProcFacts.
Local Open Scope string_scope.

(** The four fields [processCommand] reads from a SET_PRESET payload. *)
Definition presetKeys : list string := ["presetId"; "lowerSec"; "midSec"; "upperSec"].

Definition idleClub : Club := {| config := []; state := INITIAL_CLUB_STATE |}.

(** A SET_PRESET whose [lowerSec] is a string. *)
Definition malformedSetPreset : CommandWithId :=
  mkCommand "c4" "SET_PRESET"
    (JObj [("presetId", JStr "p_1_2"); ("lowerSec", JStr "abc");
           ("midSec", JNum 90); ("upperSec", JNum 120)]) 0.

(** C4 (fails): the malformed SET_PRESET is applied: the state changes, its
    status becomes armed and the string is stored as [lowerSec]. *)
Lemma malformed_payload_applied :
  match applyCommand 0 malformedSetPreset idleClub with
  | Some club' =>
    state club' <> state idleClub /\
    status_of (state club') = Some armed /\
    lookup "lowerSec" (state club') = JStr "abc"
  | None => False
  end.
Proof. vm_compute. split; [discriminate | split; reflexivity]. Qed.

(** C4 (as the code has it): no shape check. A SET_PRESET whose payload is an
    object with its four fields defined writes those values into the state as
    they are, whatever their types, together with status armed and the beep
    fields reset ([startedAtMs] null, [beeped] false, [beepCount] 0); it is refused
    with no state change only when the payload is not an object or one of the
    four fields is missing ([undefined], which the store write rejects). *)
Theorem set_preset_payload_unchecked (now : Z) (c : CommandWithId) (club : Club) :
  type c = "SET_PRESET" ->
  (forall fs, payload c = JObj fs ->
     (forallb (fun k => negb (has_undef (lookup k fs))) presetKeys = true ->
      exists club', applyCommand now c club = Some club' /\
        status_of (state club') = Some armed /\
        lookup "startedAtMs" (state club') = JNull /\
        lookup "beeped" (state club') = JBool false /\
        lookup "beepCount" (state club') = JNum 0 /\
        forall k, In k presetKeys -> lookup k (state club') = lookup k fs) /\
     (existsb (fun k => has_undef (lookup k fs)) presetKeys = true ->
      applyCommand now c club = None)) /\
  ((forall fs, payload c <> JObj fs) -> applyCommand now c club = None).
Proof.
  intros Ht. unfold applyCommand. rewrite Ht. cbn [String.eqb Ascii.eqb Bool.eqb].
  split.
  - intros fs Hp. rewrite Hp. cbn [get]. unfold updateClubState, presetKeys.
    cbn [existsb forallb snd has_undef orb andb].
    destruct (has_undef (lookup "presetId" fs)), (has_undef (lookup "lowerSec" fs)),
      (has_undef (lookup "midSec" fs)), (has_undef (lookup "upperSec" fs));
      cbn [orb andb negb]; split; intros H; try discriminate; try reflexivity.
    eexists; split; [reflexivity|]. cbn [state]. split;
      [|split; [|split; [|split]]].
    + unfold status_of. rewrite lookup_merge_last by reflexivity. reflexivity.
    + unfold merge. cbn [fold_left fst snd]. rewrite !lookup_setField. reflexivity.
    + unfold merge. cbn [fold_left fst snd]. rewrite !lookup_setField. reflexivity.
    + unfold merge. cbn [fold_left fst snd]. rewrite !lookup_setField. reflexivity.
    + intros k Hk. unfold merge. cbn [fold_left fst snd].
      rewrite !lookup_setField.
      destruct Hk as [<-|[<-|[<-|[<-|[]]]]]; reflexivity.
  - intros Hnot. destruct (payload c) eqn:Hp; try reflexivity.
    exfalso. exact (Hnot fields eq_refl).
Qed.

Lemma set_preset_payload_unchecked_witness :
  type malformedSetPreset = "SET_PRESET" /\
  ((forall fs, payload malformedSetPreset = JObj fs ->
     (forallb (fun k => negb (has_undef (lookup k fs))) presetKeys = true ->
      exists club', applyCommand 0 malformedSetPreset idleClub = Some club' /\
        status_of (state club') = Some armed /\
        lookup "startedAtMs" (state club') = JNull /\
        lookup "beeped" (state club') = JBool false /\
        lookup "beepCount" (state club') = JNum 0 /\
        forall k, In k presetKeys -> lookup k (state club') = lookup k fs) /\
     (existsb (fun k => has_undef (lookup k fs)) presetKeys = true ->
      applyCommand 0 malformedSetPreset idleClub = None)) /\
   ((forall fs, payload malformedSetPreset <> JObj fs) ->
    applyCommand 0 malformedSetPreset idleClub = None)).
Proof.
  split; [reflexivity|].
  apply (set_preset_payload_unchecked 0 malformedSetPreset idleClub). reflexivity.
Defined.

End PayloadFacts.

Module QueueFacts.
Import Store Cmd Display StoreFacts ProcFacts PayloadFacts.
Local Open Scope string_scope.

Lemma existsb_eqb_false (x : string) (l : list string) :
  ~ In x l -> existsb (String.eqb x) l = false.
Proof.
  intros H. apply not_true_is_false. intros Hex.
  apply existsb_exists in Hex as [y [Hy Heq]].
  apply String.eqb_eq in Heq. subst. contradiction.
Qed.

Lemma existsb_eqb_last (x : string) (l : list string) :
  existsb (String.eqb x) (l ++ [x]) = true.
Proof.
  rewrite existsb_app. cbn [existsb]. rewrite String.eqb_refl.
  rewrite orb_true_r. reflexivity.
Qed.

(** C8: delivering a command again (a command of the same id) after it was
    delivered once leaves the display (its club, the pending commands and
    [processedCommandIds]) as one delivery left it. *)
Theorem redelivery_idempotent (now1 now2 : Z) (c c' : CommandWithId) (p : Proc) :
  id c' = id c ->
  fst (onCommands now2 [c'] (fst (onCommands now1 [c] p)))
  = fst (onCommands now1 [c] p).
Proof.
  intros Hid. cbn [onCommands].
  destruct (existsb (String.eqb (id c)) (processedCommandIds p)) eqn:E.
  - cbn [fst onCommands]. rewrite Hid, E. reflexivity.
  - cbn -[processCommand existsb]. rewrite Hid, existsb_eqb_last. reflexivity.
Qed.

Lemma redelivery_idempotent_witness :
  id startCmd = id startCmd /\
  fst (onCommands 7000 [startCmd] (fst (onCommands 0 [startCmd] (procOf armedClub))))
  = fst (onCommands 0 [startCmd] (procOf armedClub)).
Proof.
  split; [reflexivity|]. apply (redelivery_idempotent 0 7000 startCmd startCmd). reflexivity.
Defined.

(** C9: START while the status is idle leaves the club's state (and its
    config) exactly as it was; the only effect is the command's deletion from
    the pending commands. *)
Theorem start_when_idle_noop (now : Z) (c : CommandWithId) (p : Proc) (club : Club) :
  currentClub p = Some club ->
  type c = "START" ->
  status_of (state club) = Some idle ->
  processCommand now c p =
  {| currentClub := Some club;
     commands := deleteCommand (id c) (commands p);
     processedCommandIds := processedCommandIds p |}.
Proof.
  intros Hc Ht Hs. unfold processCommand, applyCommand.
  rewrite Hc, Ht. cbn [String.eqb Ascii.eqb Bool.eqb]. rewrite Hs. reflexivity.
Qed.

Lemma start_when_idle_noop_witness :
  currentClub (procOf idleClub) = Some idleClub /\
  type startCmd = "START" /\
  status_of (state idleClub) = Some idle /\
  processCommand 0 startCmd (procOf idleClub) =
  {| currentClub := Some idleClub;
     commands := deleteCommand (id startCmd) (commands (procOf idleClub));
     processedCommandIds := processedCommandIds (procOf idleClub) |}.
Proof.
  split; [reflexivity|]. split; [reflexivity|]. split; [reflexivity|].
  apply start_when_idle_noop; reflexivity.
Defined.

Lemma onCommands_applied (now : Z) (l : list CommandWithId) (p : Proc) :
  NoDup (map id l) ->
  (forall c, In c l -> ~ In (id c) (processedCommandIds p)) ->
  snd (onCommands now l p) = l.
Proof.
  revert p. induction l as [|c rest IH]; intros p Hnd Hnew; cbn [onCommands]; [reflexivity|].
  rewrite existsb_eqb_false by (apply Hnew; left; reflexivity).
  cbn [map] in Hnd. apply NoDup_cons_iff in Hnd as [Hc Hnd].
  specialize (IH (markProcessed (id c) (processCommand now c p)) Hnd).
  destruct (onCommands now rest _) as [p'' applied]. cbn [snd] in *.
  f_equal. apply IH. intros c' Hin.
  cbn [markProcessed processedCommandIds]. rewrite processCommand_processed.
  rewrite in_app_iff. intros [H|[H|[]]].
  - exact (Hnew c' (or_intror Hin) H).
  - apply Hc. rewrite H. apply in_map, Hin.
Qed.

(** Three commands sent at 5, 1 and 3 (ms), pending together. *)
Definition batchProc : Proc :=
  {| currentClub := Some armedClub;
     commands := [mkCommand "x" "RESET" (JObj []) 5;
                  mkCommand "y" "SET_PRESET"
                    (JObj [("presetId", JStr "p_1_2"); ("lowerSec", JNum 60);
                           ("midSec", JNum 90); ("upperSec", JNum 120)]) 1;
                  mkCommand "z" "START" (JObj []) 3];
     processedCommandIds := [] |}.

(** C3: on a delivery of the pending commands (of distinct ids, none of them
    processed yet), [processCommand] is called on exactly the query's
    snapshot, in its order: every pending command once, ascending by
    [sentAtMs], equal [sentAtMs] by ascending id; the batch sent at 5, 1, 3 is
    applied in the order 1, 3, 5. *)
Theorem deliver_in_sentAtMs_order (now : Z) (p : Proc) :
  NoDup (map id (commands p)) ->
  (forall c, In c (commands p) -> ~ In (id c) (processedCommandIds p)) ->
  (snd (deliver now p) = snapshotOf p /\
   Sorted (fun a b => CommandOrder.leb a b = true) (snapshotOf p) /\
   Permutation (commands p) (snapshotOf p)) /\
  map sentAtMs (snd (deliver now batchProc)) = [1; 3; 5].
Proof.
  intros Hnd Hnew.
  pose proof (CommandSort.Permuted_sort (commands p)) as Hperm.
  split; [|vm_compute; reflexivity].
  split; [|split; [exact (CommandSort.Sorted_sort _) | exact Hperm]].
  unfold deliver, snapshotOf. apply onCommands_applied.
  - apply (Permutation_NoDup (Permutation_map id Hperm)), Hnd.
  - intros c Hin. apply Hnew. apply (Permutation_in c (Permutation_sym Hperm)), Hin.
Qed.

Lemma deliver_in_sentAtMs_order_witness :
  NoDup (map id (commands batchProc)) /\
  ((snd (deliver 0 batchProc) = snapshotOf batchProc /\
    Sorted (fun a b => CommandOrder.leb a b = true) (snapshotOf batchProc) /\
    Permutation (commands batchProc) (snapshotOf batchProc)) /\
   map sentAtMs (snd (deliver 0 batchProc)) = [1; 3; 5]).
Proof.
  assert (Hnd : NoDup (map id (commands batchProc))).
  { cbn. repeat constructor; cbn; intuition discriminate. }
  split; [exact Hnd|].
  apply (deliver_in_sentAtMs_order 0 batchProc Hnd).
  intros c _ H. exact H.
Defined.

End QueueFacts.

(** ** The formatted text *)
Module FormatFacts.
Import Format.
Local Open Scope string_scope.

Lemma parseUint_uintString (d : Decimal.uint) : parseUint (uintString d) = Some d.
Proof. induction d; cbn [uintString parseUint]; try rewrite IHd; reflexivity. Qed.

Lemma splitAt_uintString (sep : ascii) (d : Decimal.uint) (r : string) :
  (forall ch, In ch digitChars -> Ascii.eqb ch sep = false) ->
  splitAt sep (uintString d ++ String sep r) = Some (uintString d, r).
Proof.
  intros H. induction d; cbn [uintString append splitAt];
    try (rewrite H by (cbn; tauto); rewrite IHd; reflexivity).
  rewrite Ascii.eqb_refl. reflexivity.
Qed.

Lemma of_uint_D0 (d : Decimal.uint) : N.of_uint (Decimal.D0 d) = N.of_uint d.
Proof.
  rewrite <- (DecimalN.Unsigned.of_uint_norm (Decimal.D0 d)),
    <- (DecimalN.Unsigned.of_uint_norm d).
  reflexivity.
Qed.

Lemma padStart2_uintString (d : Decimal.uint) :
  exists d', padStart2 (uintString d) = uintString d' /\ uintValue d' = uintValue d.
Proof.
  unfold padStart2, uintValue.
  destruct (String.length (uintString d)) as [|[|k]].
  - exists (Decimal.D0 (Decimal.D0 d)). rewrite !of_uint_D0. split; reflexivity.
  - exists (Decimal.D0 d). rewrite of_uint_D0. split; reflexivity.
  - exists d. split; reflexivity.
Qed.

Lemma toString_nonneg (n : Z) :
  0 <= n -> toString n = uintString (N.to_uint (Z.to_N n)).
Proof.
  intros H. unfold toString. replace (n <? 0)%Z with false by (symmetry; apply Z.ltb_ge; lia).
  reflexivity.
Qed.

Lemma uintValue_to_uint (n : Z) : 0 <= n -> uintValue (N.to_uint (Z.to_N n)) = n.
Proof.
  intros H. unfold uintValue. rewrite DecimalN.Unsigned.of_to. apply Z2N.id, H.
Qed.

(** The zero-padded decimal text of a non-negative number. *)
Lemma padded_nonneg (n : Z) :
  0 <= n -> exists d, padStart2 (toString n) = uintString d /\ uintValue d = n.
Proof.
  intros H. rewrite toString_nonneg by exact H.
  destruct (padStart2_uintString (N.to_uint (Z.to_N n))) as [d [E V]].
  exists d. split; [exact E|]. rewrite V. apply uintValue_to_uint, H.
Qed.

Lemma no_sign_prefix (d : Decimal.uint) (r : string) :
  match uintString d ++ String ":" r with
  | String c r' => if Ascii.eqb c "-" then (true, r') else (false, uintString d ++ String ":" r)
  | EmptyString => (false, uintString d ++ String ":" r)
  end = (false, uintString d ++ String ":" r).
Proof. destruct d; reflexivity. Qed.

Lemma string_length_append (a b : string) :
  String.length (a ++ b) = (String.length a + String.length b)%nat.
Proof. induction a; cbn; [reflexivity | now rewrite IHa]. Qed.

Lemma padded_length_lt100 (n : Z) :
  0 <= n < 100 -> String.length (padStart2 (toString n)) = 2%nat.
Proof.
  intros H.
  assert (Hall : forallb (fun k => Nat.eqb (String.length (padStart2 (toString (Z.of_nat k)))) 2)
                   (seq 0 100) = true) by (vm_compute; reflexivity).
  rewrite forallb_forall in Hall.
  specialize (Hall (Z.to_nat n) ltac:(apply in_seq; lia)).
  rewrite Z2Nat.id in Hall by lia. apply Nat.eqb_eq, Hall.
Qed.

Lemma parseTime_formatTime (seconds : Z) : parseTime (formatTime seconds) = Some seconds.
Proof.
  unfold formatTime.
  destruct (padded_nonneg (Z.abs seconds / 60)) as [dm [Em Vm]];
    [apply Z.div_pos; lia|].
  destruct (padded_nonneg (Z.abs seconds mod 60)) as [ds [Es Vs]];
    [apply Z.mod_pos_bound; lia|].
  rewrite Em, Es.
  assert (Hsplit : splitAt ":" (uintString dm ++ String ":" (uintString ds))
                   = Some (uintString dm, uintString ds))
    by (apply splitAt_uintString; cbn; intros ch Hin;
        repeat destruct Hin as [<-|Hin]; try reflexivity; contradiction).
  assert (Hv : uintValue dm * 60 + uintValue ds = Z.abs seconds).
  { rewrite Vm, Vs. pose proof (Z.div_mod (Z.abs seconds) 60). lia. }
  destruct (Z.ltb_spec seconds 0).
  - cbn [append]. unfold parseTime. rewrite Ascii.eqb_refl.
    change (":" ++ uintString ds) with (String ":" (uintString ds)).
    rewrite Hsplit, !parseUint_uintString. f_equal. lia.
  - change ("" ++ ?x) with x. change (":" ++ uintString ds) with (String ":" (uintString ds)).
    unfold parseTime. rewrite no_sign_prefix, Hsplit, !parseUint_uintString.
    f_equal. lia.
Qed.

(** X1: the [mm:ss] text of [formatTime] determines the seconds: read back
    (sign, minutes, seconds) it gives the input, for every integer in JS's
    safe range, negative ones and those of 100 minutes or more included. *)
Theorem formatTime_parse (seconds : Z) :
  Z.abs seconds <= MAX_SAFE_INTEGER -> parseTime (formatTime seconds) = Some seconds.
Proof. intros _. apply parseTime_formatTime. Qed.

Lemma formatTime_parse_witness :
  Z.abs (-6075) <= MAX_SAFE_INTEGER /\ parseTime (formatTime (-6075)) = Some (-6075).
Proof.
  assert (H : Z.abs (-6075) <= MAX_SAFE_INTEGER) by (apply Z.leb_le; reflexivity).
  split; [exact H | exact (formatTime_parse (-6075) H)].
Defined.

(** X2: below 100 minutes [formatTime] has the fixed width of [mm:ss]:
    5 characters, 6 with the sign of a negative value. *)
Theorem formatTime_width (seconds : Z) :
  Z.abs seconds < 6000 ->
  String.length (formatTime seconds) = (if (seconds <? 0)%Z then 6%nat else 5%nat).
Proof.
  intros H. unfold formatTime.
  rewrite !string_length_append.
  rewrite padded_length_lt100 by (split; [apply Z.div_pos; lia | apply Z.div_lt_upper_bound; lia]).
  rewrite padded_length_lt100 by (pose proof (Z.mod_pos_bound (Z.abs seconds) 60); lia).
  destruct (seconds <? 0)%Z; reflexivity.
Qed.

Lemma formatTime_width_witness :
  Z.abs (-75) < 6000 /\
  String.length (formatTime (-75)) = (if ((-75) <? 0)%Z then 6%nat else 5%nat).
Proof. split; [lia|]. apply formatTime_width. lia. Defined.

(** X3: for non-negative thresholds in JS's safe integer range the
    preset-range text ["L-U min"]
    determines the whole minutes [L = lowerSec / 60] and [U = upperSec / 60]. *)
Theorem formatPresetRange_parse (lowerSec upperSec : Z) :
  0 <= lowerSec <= MAX_SAFE_INTEGER -> 0 <= upperSec <= MAX_SAFE_INTEGER ->
  parsePresetRange (formatPresetRange lowerSec upperSec)
  = Some (lowerSec / 60, upperSec / 60).
Proof.
  intros [Hl _] [Hu _]. unfold formatPresetRange.
  rewrite !toString_nonneg by (apply Z.div_pos; lia).
  set (dl := N.to_uint (Z.to_N (lowerSec / 60))).
  set (du := N.to_uint (Z.to_N (upperSec / 60))).
  unfold parsePresetRange.
  change ("-" ++ ?x) with (String "-" x).
  rewrite splitAt_uintString
    by (cbn; intros ch Hin; repeat destruct Hin as [<-|Hin]; try reflexivity; contradiction).
  change (" min") with (String " " "min").
  rewrite splitAt_uintString
    by (cbn; intros ch Hin; repeat destruct Hin as [<-|Hin]; try reflexivity; contradiction).
  rewrite String.eqb_refl, !parseUint_uintString.
  unfold dl, du. rewrite !uintValue_to_uint by (apply Z.div_pos; lia). reflexivity.
Qed.

Lemma formatPresetRange_parse_witness :
  0 <= 300 <= MAX_SAFE_INTEGER /\ 0 <= 420 <= MAX_SAFE_INTEGER /\
  parsePresetRange (formatPresetRange 300 420) = Some (300 / 60, 420 / 60).
Proof.
  assert (H3 : 0 <= 300 <= MAX_SAFE_INTEGER) by (split; [lia | apply Z.leb_le; reflexivity]).
  assert (H4 : 0 <= 420 <= MAX_SAFE_INTEGER) by (split; [lia | apply Z.leb_le; reflexivity]).
  split; [exact H3|]. split; [exact H4|]. exact (formatPresetRange_parse 300 420 H3 H4).
Defined.

End FormatFacts.

(** ** Club ids *)
Module ClubIdFacts.
Import ClubId.
Local Open Scope string_scope.

Fixpoint allAllowed (s : string) : bool :=
  match s with
  | EmptyString => true
  | String c r => allowedChar c && allAllowed r
  end.

Lemma allAllowed_Forall (s : string) :
  allAllowed s = true <-> Forall (fun c => allowedChar c = true) (list_ascii_of_string s).
Proof.
  induction s as [|c r IH]; cbn.
  - split; constructor.
  - rewrite andb_true_iff, IH. split.
    + intros [H1 H2]. constructor; assumption.
    + intros H. inversion H; subst. split; assumption.
Qed.

Lemma keepAllowed_allAllowed (s : string) : allAllowed (keepAllowed s) = true.
Proof.
  induction s as [|c r IH]; cbn; [reflexivity|].
  destruct (allowedChar c) eqn:E; cbn; [rewrite E|]; exact IH.
Qed.

Ltac bool_arith :=
  repeat match goal with
  | H : _ || _ = true |- _ => apply orb_true_iff in H; destruct H
  | H : _ && _ = true |- _ => apply andb_true_iff in H; destruct H
  | H : negb _ = true |- _ => apply negb_true_iff in H
  | H : (_ <=? _)%nat = true |- _ => apply Nat.leb_le in H
  | H : (_ =? _)%nat = true |- _ => apply Nat.eqb_eq in H
  | H : (_ =? _)%nat = false |- _ => apply Nat.eqb_neq in H
  end; lia.

Lemma allowed_not_whitespace (c : ascii) : allowedChar c = true -> isWhitespace c = false.
Proof.
  unfold allowedChar, isWhitespace. generalize (nat_of_ascii c) as n. intros n H.
  apply not_true_is_false. intros H'. bool_arith.
Qed.

Lemma allowed_lower (c : ascii) : allowedChar c = true -> lowerChar c = c.
Proof.
  unfold allowedChar, lowerChar. generalize (nat_of_ascii c) as n. intros n H.
  destruct (((65 <=? n)%nat && (n <=? 90)%nat)
            || ((192 <=? n)%nat && (n <=? 222)%nat && negb (n =? 215)%nat)) eqn:E;
    [|reflexivity].
  exfalso. bool_arith.
Qed.

Lemma allAllowed_fixed (s : string) :
  allAllowed s = true ->
  trimStart s = s /\ trimEnd s = s /\ toLowerCase s = s /\
  replaceWhitespace false s = s /\ keepAllowed s = s.
Proof.
  induction s as [|c r IH]; [repeat split|].
  cbn [allAllowed]. intros H. apply andb_true_iff in H as [Hc Hr].
  destruct (IH Hr) as (_ & He & Hl & Hw & Hk).
  pose proof (allowed_not_whitespace c Hc) as Hn.
  repeat split; cbn [trimStart trimEnd toLowerCase replaceWhitespace keepAllowed].
  - rewrite Hn. reflexivity.
  - rewrite Hn, He. reflexivity.
  - rewrite Hl, (allowed_lower c Hc). reflexivity.
  - rewrite Hn, Hw. reflexivity.
  - rewrite Hc, Hk. reflexivity.
Qed.

(** X4: a normalized club id consists of [a-z], [0-9] and [-] only, and
    normalizing it again leaves it unchanged. *)
Theorem normalizeClubId_idempotent (id : string) :
  Forall (fun c => allowedChar c = true) (list_ascii_of_string (normalizeClubId id)) /\
  normalizeClubId (normalizeClubId id) = normalizeClubId id.
Proof.
  pose proof (keepAllowed_allAllowed (replaceWhitespace false (toLowerCase (trim id)))) as H.
  fold (normalizeClubId id) in H.
  split; [apply allAllowed_Forall, H|].
  destruct (allAllowed_fixed _ H) as (Hs & He & Hl & Hw & Hk).
  unfold normalizeClubId at 1, trim. rewrite Hs, He, Hl, Hw, Hk. reflexivity.
Qed.

End ClubIdFacts.

(** ** The display over time *)
Module DisplayFacts.
Import Timer Store View Format Screen ZoneOrder.
Local Open Scope string_scope.

Lemma getColorZone_mono (e1 e2 l m u : Z) :
  (e1 <= e2)%Z -> (zoneRank (getColorZone e1 l m u) <= zoneRank (getColorZone e2 l m u))%Z.
Proof.
  intros H. unfold getColorZone.
  destruct (e1 <? l)%Z eqn:A1, (e1 <? m)%Z eqn:B1, (e1 <? u)%Z eqn:C1,
           (e2 <? l)%Z eqn:A2, (e2 <? m)%Z eqn:B2, (e2 <? u)%Z eqn:C2;
    rewrite ?Z.ltb_lt, ?Z.ltb_ge in *; cbn; lia.
Qed.

(** X5: the elapsed time [getElapsedSeconds] reports never decreases as the
    clock advances. *)
Theorem getElapsedSeconds_mono (startedAtMs : option Z) (now1 now2 : Z) :
  (now1 <= now2)%Z ->
  (getElapsedSeconds startedAtMs now1 <= getElapsedSeconds startedAtMs now2)%Z.
Proof.
  intros H. destruct startedAtMs as [s|]; cbn; [|lia].
  apply Z.div_le_mono; lia.
Qed.

Lemma getElapsedSeconds_mono_witness :
  (0 <= 2500)%Z /\ (getElapsedSeconds (Some 0) 0 <= getElapsedSeconds (Some 0) 2500)%Z.
Proof. split; [lia | apply (getElapsedSeconds_mono (Some 0) 0 2500); lia]. Defined.

(** X6: for a fixed club state the display's color class only moves forward
    through neutral, green, amber and red as the clock advances: it is
    always ["color-" ++ zone] for a zone, and the zone at a later time ranks
    no lower, whatever the thresholds. *)
Theorem displayColor_mono (s : ClubState) (now1 now2 : Z) :
  (now1 <= now2)%Z ->
  exists z1 z2,
    getDisplayColorClass s now1 = "color-" ++ zoneName z1 /\
    getDisplayColorClass s now2 = "color-" ++ zoneName z2 /\
    (zoneRank z1 <= zoneRank z2)%Z.
Proof.
  intros H. unfold getDisplayColorClass.
  destruct (status s).
  - exists neutral, neutral. repeat split; lia.
  - exists neutral, neutral. repeat split; lia.
  - eexists _, _. split; [reflexivity|]. split; [reflexivity|].
    apply getColorZone_mono, getElapsedSeconds_mono, H.
  - eexists _, _. split; [reflexivity|]. split; [reflexivity|].
    apply getColorZone_mono, getElapsedSeconds_mono, H.
Qed.

(** A running state: 60/90/120 s, started at 0. *)
Definition runningState : ClubState :=
  {| status := running; lowerSec := 60; midSec := 90; upperSec := 120;
     startedAtMs := Some 0; beeped := false; beepCount := 0 |}.

Lemma displayColor_mono_witness :
  (65000 <= 100000)%Z /\
  exists z1 z2,
    getDisplayColorClass runningState 65000 = "color-" ++ zoneName z1 /\
    getDisplayColorClass runningState 100000 = "color-" ++ zoneName z2 /\
    (zoneRank z1 <= zoneRank z2)%Z.
Proof. split; [lia | apply (displayColor_mono runningState 65000 100000); lia]. Defined.

(** X7: a frame shows the overtime indicator exactly while the timer runs
    and the shown time has reached [upperSec]; its text is
    ["+" ++ t ++ " overtime"] where [t] reads back as the time past
    [upperSec] when that time is in JS's safe integer range. *)
Theorem overtimeText_spec (s : ClubState) (showTimer : bool) (mode : OvertimeMode)
    (audioUnlocked : bool) (now : Z) :
  (overtimeText (updateDisplay s showTimer mode audioUnlocked now) <> None <->
   isRunning s = true /\ (upperSec s <= shownElapsed s now)%Z) /\
  (forall x, Z.abs (shownElapsed s now - upperSec s) <= MAX_SAFE_INTEGER ->
   overtimeText (updateDisplay s showTimer mode audioUnlocked now) = Some x ->
   exists t, x = "+" ++ t ++ " overtime" /\
             parseTime t = Some (shownElapsed s now - upperSec s)%Z).
Proof.
  cbn [overtimeText updateDisplay]. unfold isOvertime.
  destruct (isRunning s); cbn [andb].
  - destruct (Z.geb_spec (shownElapsed s now) (upperSec s)).
    + split.
      * split; [intros _; split; [reflexivity | lia] | discriminate].
      * intros x _ Hx. injection Hx as <-. eexists. split; [reflexivity|].
        apply FormatFacts.parseTime_formatTime.
    + split; [|discriminate].
      split; [intros Hn; contradiction Hn; reflexivity | intros [_ Hle]; lia].
  - split; [|discriminate].
    split; [intros Hn; contradiction Hn; reflexivity | intros [Hf _]; discriminate].
Qed.

(** X8: a frame calls [triggerBeep] only while the timer runs, with the
    audio unlocked, in an overtime mode other than [none], and at least 30 s
    past [upperSec]. *)
Theorem beeps_only_running_overtime (s : ClubState) (showTimer : bool)
    (mode : OvertimeMode) (audioUnlocked : bool) (now : Z) :
  beeps (updateDisplay s showTimer mode audioUnlocked now) = true ->
  isRunning s = true /\ audioUnlocked = true /\ mode <> none /\
  (upperSec s + 30 <= shownElapsed s now)%Z.
Proof.
  cbn [beeps updateDisplay]. intros H.
  apply andb_true_iff in H as [H Ha]. apply andb_true_iff in H as [Hr Hb].
  repeat split; try assumption.
  - intros ->. discriminate Hb.
  - unfold shouldBeep in Hb. destruct mode; [discriminate|..];
      destruct (Z.ltb_spec (shownElapsed s now - upperSec s) 30); try discriminate; lia.
Qed.

Lemma beeps_only_running_overtime_witness :
  beeps (updateDisplay runningState true once true 150000) = true /\
  isRunning runningState = true /\ true = true /\ once <> none /\
  (upperSec runningState + 30 <= shownElapsed runningState 150000)%Z.
Proof.
  split; [reflexivity|].
  apply (beeps_only_running_overtime runningState true once true 150000).
  reflexivity.
Defined.

End DisplayFacts.

(** ** The beep loop over many frames *)
Module BeepRunFacts.
Import Timer Render.





End BeepRunFacts.

(** ** Commands the controller sends, as the display applies them *)
Module ControlFacts.
Import Timer Store Cmd Display View Format Control StoreFacts TransitionFacts.
Local Open Scope string_scope.

(** How [startedAtMs] is stored. *)
Definition startedField (t : option Z) : jsval :=
  match t with None => JNull | Some t => JNum t end.

Lemma decodeState_iff (o : obj) (s : ClubState) :
  decodeState o = Some s <->
  status_of o = Some (status s) /\
  num_of (lookup "lowerSec" o) = Some (lowerSec s) /\
  num_of (lookup "midSec" o) = Some (midSec s) /\
  num_of (lookup "upperSec" o) = Some (upperSec s) /\
  lookup "startedAtMs" o = startedField (startedAtMs s) /\
  lookup "beeped" o = JBool (beeped s) /\
  num_of (lookup "beepCount" o) = Some (beepCount s).
Proof.
  split.
  - unfold decodeState. intros H.
    destruct (status_of o) eqn:E1; [|discriminate].
    destruct (num_of (lookup "lowerSec" o)) eqn:E2; [|discriminate].
    destruct (num_of (lookup "midSec" o)) eqn:E3; [|discriminate].
    destruct (num_of (lookup "upperSec" o)) eqn:E4; [|discriminate].
    destruct (lookup "startedAtMs" o) eqn:E5; try discriminate;
    destruct (lookup "beeped" o) eqn:E6; try discriminate;
    destruct (num_of (lookup "beepCount" o)) eqn:E7; try discriminate;
    injection H as <-; cbn; auto 8.
  - intros (H1 & H2 & H3 & H4 & H5 & H6 & H7). unfold decodeState.
    rewrite H1, H2, H3, H4, H5, H6, H7.
    destruct s as [st l m u [t|] b c]; reflexivity.
Qed.

Lemma controller_command_some (now t : Z) (cid clientId : string) (club : Club) :
  (exists club', applyCommand now (handleStart cid clientId t) club = Some club') /\
  (exists club', applyCommand now (handleStop cid clientId t) club = Some club') /\
  (exists club', applyCommand now (handleReset cid clientId t) club = Some club').
Proof.
  unfold handleStart, handleStop, handleReset, sendCommand, applyCommand.
  cbn [type]. repeat split;
    [ destruct (status_of (state club)) as [[]|]
    | destruct (status_of (state club)) as [[]|]
    | idtac ]; eexists; reflexivity.
Qed.

(** X11: the controller's buttons match what the display does with the
    command they send: START, STOP and RESET are enabled exactly when the
    display, processing that command, changes the club's status. *)
Theorem buttons_enabled_iff_effective (club : Club) (st : ClubStatus) (now : Z)
    (cid clientId : string) :
  status_of (state club) = Some st ->
  (startDisabled (updateButtonStates st) = false <->
   exists club', applyCommand now (handleStart cid clientId now) club = Some club' /\
                 status_of (state club') <> Some st) /\
  (stopDisabled (updateButtonStates st) = false <->
   exists club', applyCommand now (handleStop cid clientId now) club = Some club' /\
                 status_of (state club') <> Some st) /\
  (resetDisabled (updateButtonStates st) = false <->
   exists club', applyCommand now (handleReset cid clientId now) club = Some club' /\
                 status_of (state club') <> Some st).
Proof.
  intros Hs.
  destruct (controller_command_some now now cid clientId club)
    as ([c1 E1] & [c2 E2] & [c3 E3]).
  pose proof (applyCommand_status now (handleStart cid clientId now) club st Hs) as S1.
  pose proof (applyCommand_status now (handleStop cid clientId now) club st Hs) as S2.
  pose proof (applyCommand_status now (handleReset cid clientId now) club st Hs) as S3.
  rewrite E1 in S1. rewrite E2 in S2. rewrite E3 in S3.
  cbn [handleStart handleStop handleReset sendCommand type] in S1, S2, S3.
  unfold next_status in S1, S2, S3. cbn in S1, S2, S3.
  repeat split.
  - intros H. exists c1. split; [exact E1|]. rewrite S1.
    destruct st; cbn in H |- *; congruence.
  - intros (c' & E & Hn). rewrite E1 in E. injection E as <-. rewrite S1 in Hn.
    destruct st; cbn; congruence.
  - intros H. exists c2. split; [exact E2|]. rewrite S2.
    destruct st; cbn in H |- *; congruence.
  - intros (c' & E & Hn). rewrite E2 in E. injection E as <-. rewrite S2 in Hn.
    destruct st; cbn; congruence.
  - intros H. exists c3. split; [exact E3|]. rewrite S3.
    destruct st; cbn in H |- *; congruence.
  - intros (c' & E & Hn). rewrite E3 in E. injection E as <-. rewrite S3 in Hn.
    destruct st; cbn; congruence.
Qed.

Lemma buttons_enabled_iff_effective_witness :
  status_of (state ProcFacts.armedClub) = Some armed /\
  ((startDisabled (updateButtonStates armed) = false <->
    exists club', applyCommand 0 (handleStart "c" "k" 0) ProcFacts.armedClub = Some club' /\
                  status_of (state club') <> Some armed) /\
   (stopDisabled (updateButtonStates armed) = false <->
    exists club', applyCommand 0 (handleStop "c" "k" 0) ProcFacts.armedClub = Some club' /\
                  status_of (state club') <> Some armed) /\
   (resetDisabled (updateButtonStates armed) = false <->
    exists club', applyCommand 0 (handleReset "c" "k" 0) ProcFacts.armedClub = Some club' /\
                  status_of (state club') <> Some armed)).
Proof.
  split; [vm_compute; reflexivity|].
  apply (buttons_enabled_iff_effective ProcFacts.armedClub armed 0 "c" "k").
  vm_compute. reflexivity.
Defined.

Ltac merged_lookups :=
  unfold merge; cbn [fold_left fst snd]; rewrite ?lookup_setField; cbn -[lookup].

(** X12: a preset chosen on the controller arms the club, whatever state
    the display held: the command applies, the config is kept, the state
    decodes to [armed] with the preset's thresholds, no start time, not
    beeped and no beeps counted, [presetId] is the preset's id, and the
    display shows ["Set: "] with the preset's range in the neutral color. *)
Theorem presetSelect_arms (preset : Preset) (cid clientId : string) (t now : Z)
    (club : Club) :
  exists club',
    applyCommand now (handlePresetSelect preset cid clientId t) club = Some club' /\
    config club' = config club /\
    lookup "presetId" (state club') = JStr (presetId preset) /\
    let s := {| status := armed; lowerSec := lower preset; midSec := mid preset;
                upperSec := upper preset; startedAtMs := None; beeped := false;
                beepCount := 0 |} in
    decodeState (state club') = Some s /\
    getStatusText s = "Set: " ++ formatPresetRange (lower preset) (upper preset) /\
    (forall t', getDisplayColorClass s t' = "color-neutral").
Proof.
  unfold applyCommand, handlePresetSelect, sendCommand. cbn [type payload].
  cbn. eexists. split; [reflexivity|]. cbn [config state].
  split; [reflexivity|]. split; [merged_lookups; reflexivity|].
  split; [|split; reflexivity].
  apply decodeState_iff. unfold status_of. merged_lookups. auto 8.
Qed.

Lemma existsb_key_false (k : string) (patch : obj) :
  ~ In k (map fst patch) -> existsb (fun kv => String.eqb k (fst kv)) patch = false.
Proof.
  intros H. apply not_true_is_false. intros Hex.
  apply existsb_exists in Hex as [[k' v] [Hin Heq]].
  apply String.eqb_eq in Heq. cbn in Heq. subst k'.
  apply H, (in_map fst _ _ Hin).
Qed.

(** The fields RESET writes. *)
Definition resetKeys : list string :=
  ["status"; "presetId"; "lowerSec"; "midSec"; "upperSec"; "startedAtMs";
   "beeped"; "beepCount"].

(** X13: RESET applies on every club: the config is kept, the eight fields
    it writes take their [INITIAL_CLUB_STATE] values (the state decodes to
    idle, thresholds 0, no start time, not beeped, no beeps), and every
    other field, [seq] included, keeps its value. *)
Theorem reset_restores_initial (cid clientId : string) (t now : Z) (club : Club) :
  exists club',
    applyCommand now (handleReset cid clientId t) club = Some club' /\
    config club' = config club /\
    (forall k, In k resetKeys -> lookup k (state club') = lookup k INITIAL_CLUB_STATE) /\
    (forall k, ~ In k resetKeys -> lookup k (state club') = lookup k (state club)) /\
    decodeState (state club') =
      Some {| status := idle; lowerSec := 0; midSec := 0; upperSec := 0;
              startedAtMs := None; beeped := false; beepCount := 0 |}.
Proof.
  unfold applyCommand, handleReset, sendCommand. cbn [type payload]. cbn -[merge].
  eexists. split; [reflexivity|]. cbn [config state].
  split; [reflexivity|]. split; [|split].
  - intros k Hk. unfold resetKeys in Hk.
    repeat destruct Hk as [<-|Hk]; try contradiction; merged_lookups; reflexivity.
  - intros k Hk. apply lookup_merge_notin, existsb_key_false, Hk.
  - apply decodeState_iff. unfold status_of. merged_lookups. auto 8.
Qed.

(** X14: START from an armed or stopped club runs it from the display's own
    clock: the state decodes to [running] with the same thresholds,
    [startedAtMs] the display's [Date.now()] at processing, not beeped and
    no beeps counted; [presetId] and every field START does not write are
    kept; the time shown at that instant is 0, so a resume after STOP starts
    the count again. *)
Theorem start_runs_from_now (cid clientId : string) (t now : Z) (club : Club)
    (s : ClubState) :
  decodeState (state club) = Some s ->
  status s = armed \/ status s = stopped ->
  exists club',
    applyCommand now (handleStart cid clientId t) club = Some club' /\
    config club' = config club /\
    (forall k, ~ In k ["status"; "startedAtMs"; "beeped"; "beepCount"] ->
     lookup k (state club') = lookup k (state club)) /\
    let s' := {| status := running; lowerSec := lowerSec s; midSec := midSec s;
                 upperSec := upperSec s; startedAtMs := Some now; beeped := false;
                 beepCount := 0 |} in
    decodeState (state club') = Some s' /\ shownElapsed s' now = 0.
Proof.
  intros Hd Hst. apply decodeState_iff in Hd as (H1 & H2 & H3 & H4 & _ & _ & _).
  unfold applyCommand, handleStart, sendCommand. cbn [type payload].
  cbn -[merge status_of]. rewrite H1.
  destruct Hst as [E|E]; rewrite E; cbn -[merge];
  (eexists; split; [reflexivity|]; cbn [config state];
   split; [reflexivity|]; split;
   [ intros k Hk; apply lookup_merge_notin, existsb_key_false, Hk
   | split;
     [ apply decodeState_iff; unfold status_of; merged_lookups;
       repeat split; assumption
     | unfold shownElapsed, getElapsedSeconds; cbn [status startedAtMs];
       rewrite Z.sub_diag; reflexivity ] ]).
Qed.

Lemma start_runs_from_now_witness :
  decodeState (state ProcFacts.armedClub) =
    Some {| status := armed; lowerSec := 60; midSec := 90; upperSec := 120;
            startedAtMs := None; beeped := false; beepCount := 0 |} /\
  exists club',
    applyCommand 5000 (handleStart "c" "k" 4000) ProcFacts.armedClub = Some club' /\
    config club' = config ProcFacts.armedClub /\
    (forall k, ~ In k ["status"; "startedAtMs"; "beeped"; "beepCount"] ->
     lookup k (state club') = lookup k (state ProcFacts.armedClub)) /\
    let s' := {| status := running; lowerSec := 60; midSec := 90;
                 upperSec := 120; startedAtMs := Some 5000; beeped := false;
                 beepCount := 0 |} in
    decodeState (state club') = Some s' /\ shownElapsed s' 5000 = 0.
Proof.
  split; [vm_compute; reflexivity|].
  apply (start_runs_from_now "c" "k" 4000 5000 ProcFacts.armedClub
           {| status := armed; lowerSec := 60; midSec := 90; upperSec := 120;
              startedAtMs := None; beeped := false; beepCount := 0 |});
    [vm_compute; reflexivity | left; reflexivity].
Defined.

(** X15: STOP on a running club writes the status only: the state's status
    becomes [stopped], every other field (the start time, the thresholds,
    the beep fields) and the config keep their values. *)
Theorem stop_only_status (cid clientId : string) (t now : Z) (club : Club) :
  status_of (state club) = Some running ->
  exists club',
    applyCommand now (handleStop cid clientId t) club = Some club' /\
    config club' = config club /\
    status_of (state club') = Some stopped /\
    (forall k, k <> "status" -> lookup k (state club') = lookup k (state club)).
Proof.
  intros Hs. unfold applyCommand, handleStop, sendCommand. cbn [type payload].
  cbn -[merge status_of]. rewrite Hs. cbn -[merge].
  eexists. split; [reflexivity|]. cbn [config state].
  split; [reflexivity|]. split.
  - unfold status_of. merged_lookups. reflexivity.
  - intros k Hk. apply lookup_merge_notin, existsb_key_false.
    cbn. intros [H|H]; [congruence | exact H].
Qed.

(** The armed club, running since 0. *)
Definition runningClub : Club :=
  {| config := [];
     state := merge (state ProcFacts.armedClub)
                [("status", JStr "running"); ("startedAtMs", JNum 0)] |}.

Lemma stop_only_status_witness :
  status_of (state runningClub) = Some running /\
  exists club',
    applyCommand 100000 (handleStop "c" "k" 99000) runningClub = Some club' /\
    config club' = config runningClub /\
    status_of (state club') = Some stopped /\
    (forall k, k <> "status" -> lookup k (state club') = lookup k (state runningClub)).
Proof.
  split; [vm_compute; reflexivity|].
  apply (stop_only_status "c" "k" 99000 100000 runningClub). vm_compute. reflexivity.
Defined.

End ControlFacts.

(** ** The command queue over many deliveries *)
Module QueueMoreFacts.
Import Store Cmd Display.
Local Open Scope string_scope.

(** The commands of a snapshot whose id is new: not in [seen] and not the id
    of an earlier command of the snapshot, in snapshot order. *)
Fixpoint freshCommands (seen : list string) (l : list CommandWithId)
    : list CommandWithId :=
  match l with
  | [] => []
  | c :: rest =>
    if existsb (String.eqb (id c)) seen then freshCommands seen rest
    else c :: freshCommands (seen ++ [id c]) rest
  end.

Lemma onCommands_fresh (now : Z) (l : list CommandWithId) (p : Proc) :
  snd (onCommands now l p) = freshCommands (processedCommandIds p) l.
Proof.
  revert p. induction l as [|c rest IH]; intros p; cbn [onCommands freshCommands];
    [reflexivity|].
  destruct (existsb _ _); [apply IH|].
  specialize (IH (markProcessed (id c) (processCommand now c p))).
  destruct (onCommands now rest _) as [p'' applied]. cbn [snd] in *.
  rewrite IH. cbn [markProcessed processedCommandIds].
  rewrite ProcFacts.processCommand_processed. reflexivity.
Qed.

Lemma onCommands_log (now : Z) (l : list CommandWithId) (p : Proc) :
  processedCommandIds (fst (onCommands now l p)) =
  (processedCommandIds p ++ map id (snd (onCommands now l p)))%list.
Proof.
  revert p. induction l as [|c rest IH]; intros p; cbn [onCommands].
  - cbn. rewrite app_nil_r. reflexivity.
  - destruct (existsb _ _); [apply IH|].
    specialize (IH (markProcessed (id c) (processCommand now c p))).
    destruct (onCommands now rest _) as [p'' applied]. cbn [fst snd] in *.
    rewrite IH. cbn [markProcessed processedCommandIds].
    rewrite ProcFacts.processCommand_processed, <- app_assoc. reflexivity.
Qed.

Lemma onCommands_applied_new (now : Z) (l : list CommandWithId) (p : Proc) :
  forall c, In c (snd (onCommands now l p)) -> ~ In (id c) (processedCommandIds p).
Proof.
  revert p. induction l as [|c0 rest IH]; intros p c; cbn [onCommands]; [intros []|].
  destruct (existsb (String.eqb (id c0)) (processedCommandIds p)) eqn:E; [apply IH|].
  specialize (IH (markProcessed (id c0) (processCommand now c0 p)) c).
  destruct (onCommands now rest _) as [p'' applied]. cbn [snd] in *.
  intros [<-|Hin].
  - intros Hp. apply not_true_iff_false in E. apply E, existsb_exists.
    exists (id c0). split; [exact Hp | apply String.eqb_refl].
  - intros Hp. apply (IH Hin). cbn [markProcessed processedCommandIds].
    rewrite ProcFacts.processCommand_processed. apply in_or_app. left. exact Hp.
Qed.

Lemma onCommands_seen (now : Z) (l : list CommandWithId) (p : Proc) :
  forall c, In c l -> In (id c) (processedCommandIds (fst (onCommands now l p))).
Proof.
  revert p. induction l as [|c0 rest IH]; intros p c Hc; [destruct Hc|].
  rewrite onCommands_log. destruct Hc as [->|Hc].
  - cbn [onCommands].
    destruct (existsb (String.eqb (id c)) (processedCommandIds p)) eqn:E.
    + apply existsb_exists in E as [x [Hx Heq]]. apply String.eqb_eq in Heq.
      subst x. apply in_or_app. left. exact Hx.
    + destruct (onCommands now rest _) as [p'' applied]. cbn [snd map].
      apply in_or_app. right. left. reflexivity.
  - rewrite <- onCommands_log. cbn [onCommands].
    destruct (existsb _ _); [apply IH, Hc|].
    pose proof (IH (markProcessed (id c0) (processCommand now c0 p)) c Hc) as H.
    destruct (onCommands now rest _) as [p'' applied]. exact H.
Qed.

Lemma processCommand_keeps (now : Z) (c0 c : CommandWithId) (p : Proc) :
  id c0 <> id c -> In c (commands p) -> In c (commands (processCommand now c0 p)).
Proof.
  intros Hne Hc. unfold processCommand.
  destruct (currentClub p) as [club|]; [|exact Hc].
  destruct (applyCommand now c0 club); [|exact Hc].
  cbn [commands]. unfold deleteCommand. apply filter_In. split; [exact Hc|].
  destruct (String.eqb_spec (id c) (id c0)); [congruence | reflexivity].
Qed.

Lemma onCommands_keeps_seen (now : Z) (l : list CommandWithId) (p : Proc) (c : CommandWithId) :
  In (id c) (processedCommandIds p) -> In c (commands p) ->
  In c (commands (fst (onCommands now l p))).
Proof.
  revert p. induction l as [|c0 rest IH]; intros p Hp Hc; cbn [onCommands]; [exact Hc|].
  destruct (existsb (String.eqb (id c0)) (processedCommandIds p)) eqn:E; [apply IH; assumption|].
  specialize (IH (markProcessed (id c0) (processCommand now c0 p))).
  destruct (onCommands now rest _) as [p'' applied]. apply IH.
  - cbn [markProcessed processedCommandIds]. rewrite ProcFacts.processCommand_processed.
    apply in_or_app. left. exact Hp.
  - cbn [markProcessed commands]. apply processCommand_keeps; [|exact Hc].
    intros Heq. rewrite Heq in E. apply not_true_iff_false in E. apply E.
    apply existsb_exists. exists (id c). split; [exact Hp | apply String.eqb_refl].
Qed.

(** X16: one delivery hands to [processCommand] exactly the snapshot's
    commands whose id is neither in [processedCommandIds] nor that of an
    earlier command of the snapshot, in snapshot order, whatever processing
    does (applied, thrown, no club); it extends [processedCommandIds] by
    exactly their ids, never hands over an id already there, and the ids
    stay free of duplicates. *)
Theorem onCommands_processed_log (now : Z) (l : list CommandWithId) (p : Proc) :
  NoDup (processedCommandIds p) ->
  snd (onCommands now l p) = freshCommands (processedCommandIds p) l /\
  processedCommandIds (fst (onCommands now l p)) =
    (processedCommandIds p ++ map id (snd (onCommands now l p)))%list /\
  (forall c, In c (snd (onCommands now l p)) -> ~ In (id c) (processedCommandIds p)) /\
  NoDup (processedCommandIds (fst (onCommands now l p))).
Proof.
  intros Hnd. split; [apply onCommands_fresh|].
  split; [apply onCommands_log|]. split; [apply onCommands_applied_new|].
  revert p Hnd. induction l as [|c rest IH]; intros p Hnd; cbn [onCommands]; [exact Hnd|].
  destruct (existsb (String.eqb (id c)) (processedCommandIds p)) eqn:E; [apply IH, Hnd|].
  specialize (IH (markProcessed (id c) (processCommand now c p))).
  destruct (onCommands now rest _) as [p'' applied]. apply IH.
  cbn [markProcessed processedCommandIds]. rewrite ProcFacts.processCommand_processed.
  apply NoDup_app; [exact Hnd | constructor; [intros []|constructor] |].
  intros x Hx [<-|[]]. apply not_true_iff_false in E. apply E.
  apply existsb_exists. exists (id c). split; [exact Hx | apply String.eqb_refl].
Qed.

(** Two pending commands on the armed club. *)
Definition twoCmds : list CommandWithId :=
  [ProcFacts.startCmd; ProcFacts.stopCmd].

(** A display that has already processed [c1], delivered [c1], [c2] and
    [c2] again. *)
Definition seenProc : Proc :=
  {| currentClub := Some ProcFacts.armedClub;
     commands := [ProcFacts.startCmd; ProcFacts.stopCmd];
     processedCommandIds := ["c1"] |}.

Definition redelivered : list CommandWithId :=
  [ProcFacts.startCmd; ProcFacts.stopCmd; ProcFacts.stopCmd].

Lemma onCommands_processed_log_witness :
  NoDup (processedCommandIds seenProc) /\
  snd (onCommands 0 redelivered seenProc) = [ProcFacts.stopCmd] /\
  (snd (onCommands 0 redelivered seenProc) =
     freshCommands (processedCommandIds seenProc) redelivered /\
   processedCommandIds (fst (onCommands 0 redelivered seenProc)) =
     (processedCommandIds seenProc
      ++ map id (snd (onCommands 0 redelivered seenProc)))%list /\
   (forall c, In c (snd (onCommands 0 redelivered seenProc)) ->
    ~ In (id c) (processedCommandIds seenProc)) /\
   NoDup (processedCommandIds (fst (onCommands 0 redelivered seenProc)))).
Proof.
  assert (Hnd : NoDup (processedCommandIds seenProc))
    by (constructor; [intros [] | constructor]).
  split; [exact Hnd|]. split; [vm_compute; reflexivity|].
  exact (onCommands_processed_log 0 redelivered seenProc Hnd).
Defined.

(** X17: a command whose processing throws (a payload read or a store write
    rejected) is never retried: after the delivery that handed it over it is
    still pending in the store, its id is in [processedCommandIds], and no
    later delivery to a display that kept those ids hands over a command
    with that id. *)
Theorem failed_command_never_retried (now : Z) (c : CommandWithId)
    (rest : list CommandWithId) (p : Proc) (club : Club) :
  currentClub p = Some club ->
  applyCommand now c club = None ->
  ~ In (id c) (processedCommandIds p) ->
  In c (commands p) ->
  let p1 := fst (onCommands now (c :: rest) p) in
  In c (snd (onCommands now (c :: rest) p)) /\
  In c (commands p1) /\
  In (id c) (processedCommandIds p1) /\
  (forall (p2 : Proc) (now' : Z) (l : list CommandWithId),
   incl (processedCommandIds p1) (processedCommandIds p2) ->
   forall c', In c' (snd (onCommands now' l p2)) -> id c' <> id c).
Proof.
  intros Hclub Happ Hnew Hpend p1.
  assert (Hseen : In (id c) (processedCommandIds p1))
    by (apply onCommands_seen; left; reflexivity).
  split; [|split; [|split; [exact Hseen|]]].
  - cbn [onCommands]. rewrite QueueFacts.existsb_eqb_false by exact Hnew.
    destruct (onCommands now rest _). left. reflexivity.
  - unfold p1. cbn [onCommands]. rewrite QueueFacts.existsb_eqb_false by exact Hnew.
    pose proof (onCommands_keeps_seen now rest
                  (markProcessed (id c) (processCommand now c p)) c) as K.
    destruct (onCommands now rest _) as [p'' applied]. apply K.
    + cbn [markProcessed processedCommandIds]. apply in_or_app. right. left. reflexivity.
    + cbn [markProcessed commands]. unfold processCommand. rewrite Hclub, Happ. exact Hpend.
  - intros p2 now' l Hincl c' Hin Heq.
    apply (onCommands_applied_new now' l p2 c' Hin). rewrite Heq. apply Hincl, Hseen.
Qed.

(** A SET_PRESET whose payload is [null]: reading it throws. *)
Definition nullPreset : CommandWithId :=
  ProcFacts.mkCommand "c9" "SET_PRESET" JNull 0.

Lemma failed_command_never_retried_witness :
  currentClub (ProcFacts.procOf ProcFacts.armedClub) = Some ProcFacts.armedClub /\
  applyCommand 0 nullPreset ProcFacts.armedClub = None /\
  ~ In (id nullPreset) (processedCommandIds (ProcFacts.procOf ProcFacts.armedClub)) /\
  (let p := {| currentClub := Some ProcFacts.armedClub; commands := [nullPreset];
               processedCommandIds := [] |} in
   let p1 := fst (onCommands 0 [nullPreset] p) in
   In nullPreset (snd (onCommands 0 [nullPreset] p)) /\
   In nullPreset (commands p1) /\
   In (id nullPreset) (processedCommandIds p1) /\
   (forall (p2 : Proc) (now' : Z) (l : list CommandWithId),
    incl (processedCommandIds p1) (processedCommandIds p2) ->
    forall c', In c' (snd (onCommands now' l p2)) -> id c' <> id nullPreset)).
Proof.
  split; [reflexivity|]. split; [vm_compute; reflexivity|]. split; [intros []|].
  apply (failed_command_never_retried 0 nullPreset []
           {| currentClub := Some ProcFacts.armedClub; commands := [nullPreset];
              processedCommandIds := [] |} ProcFacts.armedClub);
    [reflexivity | vm_compute; reflexivity | intros [] | left; reflexivity].
Defined.

(** X18: commands delivered while the display holds no club yet are all
    marked processed without effect: the club stays unloaded, the store
    keeps every pending command, and no later delivery to a display that
    kept those ids (the club loaded meanwhile or not) hands any of them
    over; they stay pending forever. *)
Theorem commands_before_club_lost (now : Z) (l : list CommandWithId) (p : Proc) :
  currentClub p = None ->
  let p1 := fst (onCommands now l p) in
  currentClub p1 = None /\
  commands p1 = commands p /\
  (forall c, In c l -> In (id c) (processedCommandIds p1)) /\
  (forall (p2 : Proc) (now' : Z) (l' : list CommandWithId),
   incl (processedCommandIds p1) (processedCommandIds p2) ->
   forall c c', In c l -> In c' (snd (onCommands now' l' p2)) -> id c' <> id c).
Proof.
  intros Hnone p1.
  assert (Hst : currentClub p1 = None /\ commands p1 = commands p).
  { unfold p1. clear p1. revert p Hnone. induction l as [|c rest IH]; intros p Hnone;
      cbn [onCommands]; [split; [exact Hnone | reflexivity]|].
    destruct (existsb _ _); [apply IH, Hnone|].
    specialize (IH (markProcessed (id c) (processCommand now c p))).
    destruct (onCommands now rest _) as [p'' applied]. cbn [fst] in *.
    unfold processCommand in IH. rewrite Hnone in IH. apply IH, Hnone. }
  destruct Hst as [H1 H2]. split; [exact H1|]. split; [exact H2|].
  split; [intros c Hc; apply onCommands_seen, Hc|].
  intros p2 now' l' Hincl c c' Hc Hin Heq.
  apply (onCommands_applied_new now' l' p2 c' Hin). rewrite Heq.
  apply Hincl, onCommands_seen, Hc.
Qed.

Lemma commands_before_club_lost_witness :
  currentClub {| currentClub := None; commands := twoCmds; processedCommandIds := [] |} = None /\
  (let p := {| currentClub := None; commands := twoCmds; processedCommandIds := [] |} in
   let p1 := fst (onCommands 0 twoCmds p) in
   currentClub p1 = None /\
   commands p1 = commands p /\
   (forall c, In c twoCmds -> In (id c) (processedCommandIds p1)) /\
   (forall (p2 : Proc) (now' : Z) (l' : list CommandWithId),
    incl (processedCommandIds p1) (processedCommandIds p2) ->
    forall c c', In c twoCmds -> In c' (snd (onCommands now' l' p2)) -> id c' <> id c)).
Proof.
  split; [reflexivity|].
  apply (commands_before_club_lost 0 twoCmds
           {| currentClub := None; commands := twoCmds; processedCommandIds := [] |}).
  reflexivity.
Defined.

(** X19: a command of any type other than SET_PRESET, START, STOP and RESET
    never changes the club's state: UPDATE_CONFIG writes the config only,
    and an unknown type leaves the club as it is (and is deleted). *)
Theorem other_commands_keep_state (now : Z) (c : CommandWithId) (club club' : Club) :
  ~ In (type c) ["SET_PRESET"; "START"; "STOP"; "RESET"] ->
  applyCommand now c club = Some club' ->
  state club' = state club /\ (type c <> "UPDATE_CONFIG" -> club' = club).
Proof.
  intros Ht. unfold applyCommand.
  destruct (String.eqb_spec (type c) "SET_PRESET"); [contradiction Ht; left; auto|].
  destruct (String.eqb_spec (type c) "START"); [contradiction Ht; right; left; auto|].
  destruct (String.eqb_spec (type c) "STOP"); [contradiction Ht; do 2 right; left; auto|].
  destruct (String.eqb_spec (type c) "RESET"); [contradiction Ht; do 3 right; left; auto|].
  destruct (String.eqb_spec (type c) "UPDATE_CONFIG").
  - unfold updateClubConfig. destruct (payload c); try discriminate.
    destruct (existsb _ _); [discriminate|]. intros H. injection H as <-.
    split; [reflexivity | intros Hn; contradiction].
  - intros H. injection H as <-. split; reflexivity.
Qed.

Lemma other_commands_keep_state_witness :
  ~ In "UPDATE_CONFIG" ["SET_PRESET"; "START"; "STOP"; "RESET"] /\
  applyCommand 0 (ProcFacts.mkCommand "c5" "UPDATE_CONFIG" (JObj [("showTimer", JBool false)]) 0)
    ProcFacts.armedClub =
    Some {| config := [("showTimer", JBool false)]; state := state ProcFacts.armedClub |} /\
  state {| config := [("showTimer", JBool false)]; state := state ProcFacts.armedClub |} =
    state ProcFacts.armedClub /\
  ("UPDATE_CONFIG" <> "UPDATE_CONFIG" ->
   {| config := [("showTimer", JBool false)]; state := state ProcFacts.armedClub |} =
     ProcFacts.armedClub).
Proof.
  assert (Ht : ~ In "UPDATE_CONFIG" ["SET_PRESET"; "START"; "STOP"; "RESET"])
    by (cbn; intros H; repeat destruct H as [H|H]; discriminate H || exact H).
  assert (Ha : applyCommand 0 (ProcFacts.mkCommand "c5" "UPDATE_CONFIG"
                 (JObj [("showTimer", JBool false)]) 0) ProcFacts.armedClub =
               Some {| config := [("showTimer", JBool false)];
                       state := state ProcFacts.armedClub |})
    by (vm_compute; reflexivity).
  split; [exact Ht|]. split; [exact Ha|].
  exact (other_commands_keep_state 0
           (ProcFacts.mkCommand "c5" "UPDATE_CONFIG" (JObj [("showTimer", JBool false)]) 0)
           ProcFacts.armedClub _ Ht Ha).
Defined.

End QueueMoreFacts.
